(** * DriftShell (hackterm_game.py): gating, script effects and persistence

    A shallow embedding of the node-gating and world-state engine of
    [hackterm_game.py], and the properties of it that the specification
    states.

    Conventions of the embedding.
    - A Python [str] is a [string]: the sequence of the bytes of its UTF-8
      encoding.  Equality, membership, concatenation and the code-point
      order used by [sorted] are then those of Python.  Case mappings and
      whitespace are the ASCII ones; bytes above 127 are left alone.
    - A Python [set] of strings is a [gset string]; a [list] is a [list];
      a [dict] iterated in insertion order is an association list.
    - The player state is a dict mutated in place by the command handlers:
      handlers are computations of a state-and-output monad that can raise.
    - The renderer ([render], [textwrap]) is outside the engine: [show] and
      [print] are recorded with the text they were given. *)

From stdpp Require Import gmap strings list sorting pretty.
From Stdlib Require Import Ascii NArith.
From Stdlib Require String.

#[local] Set Warnings "-clear-no-such-hyp".

(** ** Python library functions used by the engine *)

Module Py.

Definition ord (c : ascii) : N := N_of_ascii c.
Definition chr (n : N) : ascii := ascii_of_N n.

Definition is_upper (c : ascii) : bool := (65 <=? ord c)%N && (ord c <=? 90)%N.
Definition is_lower (c : ascii) : bool := (97 <=? ord c)%N && (ord c <=? 122)%N.

Fixpoint map_chars (f : ascii → ascii) (s : string) : string :=
  match s with
  | EmptyString => EmptyString
  | String c s' => String (f c) (map_chars f s')
  end.

(** [str.upper] and [str.lower]. *)
Definition upper_char (c : ascii) : ascii :=
  if is_lower c then chr (ord c - 32) else c.
Definition lower_char (c : ascii) : ascii :=
  if is_upper c then chr (ord c + 32) else c.
Definition upper : string → string := map_chars upper_char.
Definition lower : string → string := map_chars lower_char.

(** [codecs.decode(_, "rot_13")]: the codec is a translation table that
    sends A-M and a-m thirteen letters up, N-Z and n-z thirteen letters
    down, and has no entry for any other character. *)
Definition rot13_char (c : ascii) : ascii :=
  let n := ord c in
  if (65 <=? n)%N && (n <=? 77)%N then chr (n + 13)
  else if (78 <=? n)%N && (n <=? 90)%N then chr (n - 13)
  else if (97 <=? n)%N && (n <=? 109)%N then chr (n + 13)
  else if (110 <=? n)%N && (n <=? 122)%N then chr (n - 13)
  else c.
Definition rot_13 : string → string := map_chars rot13_char.

(** [needle in hay] on strings. *)
Fixpoint contains (needle hay : string) : bool :=
  String.prefix needle hay ||
  match hay with
  | EmptyString => false
  | String _ hay' => contains needle hay'
  end.

(** [hay.endswith(suffix)] and the slice [hay[:-n]]. *)
Definition endswith (hay suffix : string) : bool :=
  let n := String.length hay in
  let k := String.length suffix in
  (k <=? n) && String.eqb (String.substring (n - k) k hay) suffix.
Definition drop_last (n : nat) (s : string) : string :=
  String.substring 0 (String.length s - n) s.

(** [sep.join(parts)]. *)
Definition join (sep : string) (parts : list string) : string :=
  String.concat sep parts.

(** [str.strip()]: whitespace removed at both ends. *)
Definition is_space (c : ascii) : bool :=
  let n := ord c in
  ((9 <=? n)%N && (n <=? 13)%N) || ((28 <=? n)%N && (n <=? 32)%N).
Fixpoint lstrip (s : string) : string :=
  match s with
  | String c s' => if is_space c then lstrip s' else s
  | EmptyString => EmptyString
  end.
Fixpoint rstrip (s : string) : string :=
  match s with
  | EmptyString => EmptyString
  | String c s' =>
      match rstrip s' with
      | EmptyString => if is_space c then EmptyString else String c EmptyString
      | r => String c r
      end
  end.
Definition strip (s : string) : string := rstrip (lstrip s).

(** [sorted] on strings: the order is the lexicographic one on
    characters, the result the sorted rearrangement of the input. *)
Definition str_le (a b : string) : Prop := String.leb a b.
#[global] Instance str_le_dec a b : Decision (str_le a b).
Proof. unfold str_le. apply _. Defined.
Definition sorted (l : list string) : list string := merge_sort str_le l.

(** [str(n)] for a length. *)
Definition str_of_nat (n : nat) : string := pretty n.

(** [base64.b64decode(_, validate=True)]: groups of four characters of
    the standard alphabet, the last group padded with one or two [=];
    anything else raises. *)
Definition b64_value (c : ascii) : option N :=
  let n := ord c in
  if is_upper c then Some (n - 65)%N
  else if is_lower c then Some (n - 71)%N
  else if (48 <=? n)%N && (n <=? 57)%N then Some (n + 4)%N
  else if (n =? 43)%N then Some 62%N
  else if (n =? 47)%N then Some 63%N
  else None.

Definition b64_bytes (k : nat) (v : N) : list ascii :=
  take k [chr (N.shiftr v 16 mod 256); chr (N.shiftr v 8 mod 256); chr (v mod 256)].

Definition b64_quad (a b c d : N) : N :=
  N.lor (N.lor (N.shiftl a 18) (N.shiftl b 12)) (N.lor (N.shiftl c 6) d).

Fixpoint b64_groups (fuel : nat) (s : string) : option (list ascii) :=
  match fuel, s with
  | _, EmptyString => Some []
  | S fuel', String c1 (String c2 (String c3 (String c4 rest))) =>
      a ← b64_value c1; b ← b64_value c2;
      match rest, b64_value c3, b64_value c4 with
      | _, Some c, Some d =>
          tl ← b64_groups fuel' rest; Some (b64_bytes 3 (b64_quad a b c d) ++ tl)
      | EmptyString, Some c, None =>
          if Ascii.eqb c4 "="%char then Some (b64_bytes 2 (b64_quad a b c 0)) else None
      | EmptyString, None, None =>
          if Ascii.eqb c3 "="%char && Ascii.eqb c4 "="%char
          then Some (b64_bytes 1 (b64_quad a b 0 0)) else None
      | _, _, _ => None
      end
  | _, _ => None
  end.

Definition b64decode (s : string) : option (list ascii) :=
  b64_groups (String.length s) s.

(** [bytes.decode("utf-8", errors="replace")]: well-formed sequences are
    kept, every maximal ill-formed part becomes U+FFFD (bytes EF BF BD). *)
Definition in_range (lo hi : N) (c : ascii) : bool :=
  (lo <=? ord c)%N && (ord c <=? hi)%N.
Definition replacement : list ascii := [chr 239; chr 191; chr 189].

(** The bounds of the second byte and the number of continuation bytes
    that a lead byte asks for. *)
Definition utf8_lead (c : ascii) : option (N * N * nat) :=
  let n := ord c in
  if in_range 194 223 c then Some (128%N, 191%N, 1%nat)
  else if (n =? 224)%N then Some (160%N, 191%N, 2%nat)
  else if in_range 225 236 c || in_range 238 239 c then Some (128%N, 191%N, 2%nat)
  else if (n =? 237)%N then Some (128%N, 159%N, 2%nat)
  else if (n =? 240)%N then Some (144%N, 191%N, 3%nat)
  else if in_range 241 243 c then Some (128%N, 191%N, 3%nat)
  else if (n =? 244)%N then Some (128%N, 143%N, 3%nat)
  else None.

(** Continuation bytes of one sequence: [Some] with the bytes read when
    all [k] are there, [None] when the sequence breaks off; the rest of
    the input comes back in both cases. *)
Fixpoint utf8_tail (k : nat) (lo hi : N) (bs : list ascii)
  : option (list ascii) * list ascii :=
  match k, bs with
  | O, _ => (Some [], bs)
  | S k', b :: bs' =>
      if in_range lo hi b then
        let '(r, rest) := utf8_tail k' 128 191 bs' in
        (cons b <$> r, rest)
      else (None, bs)
  | S _, [] => (None, [])
  end.

Fixpoint utf8_replace (fuel : nat) (bs : list ascii) : list ascii :=
  match fuel, bs with
  | S fuel', b :: bs' =>
      if (ord b <? 128)%N then b :: utf8_replace fuel' bs'
      else match utf8_lead b with
           | Some (lo, hi, k) =>
               match utf8_tail k lo hi bs' with
               | (Some tl, rest) => b :: tl ++ utf8_replace fuel' rest
               | (None, rest) => replacement ++ utf8_replace fuel' rest
               end
           | None => replacement ++ utf8_replace fuel' bs'
           end
  | _, _ => []
  end.

Definition decode_utf8 (bs : list ascii) : string :=
  String.string_of_list_ascii (utf8_replace (length bs) bs).

End Py.

(** ** World Definition *)

(** [block(text)]: the lines of a dedented paragraph joined by newlines. *)
Definition newline : string := String (Py.chr 10) EmptyString.
Definition block (lines : list string) : string := Py.join newline lines.

(** A file of a node: the dict's ["type"] selects the other keys it has. *)
Inductive File :=
| TextFile (cipher : bool) (content : string)
| ScriptFile (script_id : string) (downloadable : bool) (content : string)
| ItemFile (item_id : string) (downloadable : bool) (content : string).

Definition file_type (f : File) : string :=
  match f with
  | TextFile _ _ => "text"
  | ScriptFile _ _ _ => "script"
  | ItemFile _ _ _ => "item"
  end.

Definition file_content (f : File) : string :=
  match f with
  | TextFile _ c | ScriptFile _ _ c | ItemFile _ _ c => c
  end.

Record Entry := { req_items : list string; req_flags : list string }.

Record Node := {
  title : string;
  desc : string;
  entry : Entry;
  links : list string;
  files : list (string * File)
}.

Definition node_hub_home : Node :=
  {| title := "HUB/HOME";
     desc := block [
       "A sterile hub and a dead net outside the glass.";
       "The prompt waits. The drift is quiet tonight."];
     entry := {| req_items := []; req_flags := [] |};
     links := ["market.node"; "perimeter.gate"];
     files := [
       ("readme.txt", TextFile false
          (block [
            "HACKTERM//BOOTSTRAP";
            "This shell simulates a dead net for training and salvage.";
            "";
            "Commands:";
            "  scan              list discovered nodes";
            "  connect <node>    jump to a node";
            "  ls                list files in the node";
            "  cat <file>        read a file";
            "  download <file>   take a script or item";
            "  run <script>      execute a script in your kit";
            "  decode rot13|b64  decode the last cipher you read";
            "  inventory         list your scripts and items";
            "  log               review your activity";
            "  home              return to hub";
            "  save              write a save file";
            "  load              load save file"]));
       ("message.txt", TextFile false
          (block [
            "FROM: SWITCHBOARD";
            "SUBJ: ember signal";
            "";
            "We caught a pulse in the Drift. It points at the Sable Archive.";
            "Follow the ember. Bring back what you can. Decide if it should";
            "leave the net or stay buried.";
            "";
            "Start by mapping the edge with tracer.s.";
            "Then sweep for hidden signals with sniffer.s."]));
       ("tracer.s", ScriptFile "tracer" true
          (block [
            "/* tracer.s */";
            "function main() {";
            "  // Map the perimeter mesh and expose reachable nodes.";
            "  // Output is cached to your local scan results.";
            "}"]))] |}.

Definition node_market_node : Node :=
  {| title := "SCRAP EXCHANGE";
     desc := block [
       "A low signal bazaar built from scavenged hardware.";
       "Deals are cheap. Trust is not."];
     entry := {| req_items := []; req_flags := ["trace_open"] |};
     links := ["hub.home"; "perimeter.gate"; "weaver.den"];
     files := [
       ("stall.log", TextFile false
          (block [
            "SCRAP EXCHANGE LOG";
            "Juniper keeps a mask routine in plain sight. Run spoof.s to mint";
            "a mask.dat. The perimeter gate will not open without a badge";
            "and a mask."]));
       ("rumor.txt", TextFile false
          (block [
            "RUMOR SLIP";
            "There's a quiet band with a Weaver den and a corp audit node.";
            "Sniffer pulses can spot them. Pull sniffer.s and sweep."]));
       ("sniffer.s", ScriptFile "sniffer" true
          (block [
            "/* sniffer.s */";
            "function main() {";
            "  // Sweep the quiet bands for hidden signals.";
            "}"]));
       ("spoof.s", ScriptFile "spoof" true
          (block [
            "/* spoof.s */";
            "function main() {";
            "  // Spoof a temporary mask signature.";
            "  // Output: mask.dat";
            "}"]))] |}.

Definition node_weaver_den : Node :=
  {| title := "WEAVER.DEN";
     desc := block [
       "A low-lit workshop of stitched code and soft voices.";
       "The Weavers trade in patterns and provenance."];
     entry := {| req_items := []; req_flags := ["sniffer_run"] |};
     links := ["market.node"; "archives.arc"; "corp.audit"];
     files := [
       ("weaver.log", TextFile false
          (block [
            "WEAVER.DEN LOG";
            "Bring proof of thread. The Lattice cache honors a token spliced";
            "from badge.sig + mask.dat + weaver.mark. Use splice.s.";
            "Ghost your trail with ghost.s to reach the corporate audit node."]));
       ("weaver.mark", ItemFile "weaver.mark" true
          (block [
            "WEAVER.MARK";
            "A stitched glyph accepted by those who know."]));
       ("splice.s", ScriptFile "splice" true
          (block [
            "/* splice.s */";
            "function main() {";
            "  // Forge a lattice token from badge, mask, and mark.";
            "}"]));
       ("ghost.s", ScriptFile "ghost" true
          (block [
            "/* ghost.s */";
            "function main() {";
            "  // Mask your audit trail to slip past corp sensors.";
            "}"]))] |}.

Definition node_corp_audit : Node :=
  {| title := "CORP.AUDIT";
     desc := block [
       "An audit chamber lit by cold LEDs.";
       "Anything unmasked gets burned."];
     entry := {| req_items := []; req_flags := ["ghosted"] |};
     links := ["weaver.den"];
     files := [
       ("audit.log", TextFile false
          (block [
            "CORP AUDIT SUMMARY";
            "A relay shard was quarantined after the Drift patch.";
            "If you want it, stay ghosted and move quiet."]));
       ("relay.shard", ItemFile "relay.shard" true
          (block [
            "RELAY.SHARD";
            "Segment: LK-ACCT/relay";
            "Status: cold"]))] |}.

Definition node_lattice_cache : Node :=
  {| title := "LATTICE.CACHE";
     desc := block [
       "A vault of interlocked lattice.";
       "The air tastes like static and old promises."];
     entry := {| req_items := ["token.key"; "weaver.mark"]; req_flags := ["lattice_sigil"] |};
     links := ["archives.arc"; "core.relic"];
     files := [
       ("cache.log", TextFile false
          (block [
            "LATTICE CACHE";
            "The lattice accepts the token and the weaver mark.";
            "The relic key rests inside. Fork the relay to expose the core."]));
       ("cache.rot13", TextFile true
          ("gur eryvp xrl jnvgf va gur pnpur."));
       ("relic.key", ItemFile "relic.key" true
          (block [
            "RELIC.KEY";
            "Access key for CORE RELIC."]))] |}.

Definition node_perimeter_gate : Node :=
  {| title := "PERIMETER.GATE";
     desc := block [
       "The Lotus-Kline perimeter still hums with old security.";
       "A quiet node, a long memory."];
     entry := {| req_items := []; req_flags := ["trace_open"] |};
     links := ["hub.home"; "market.node"; "archives.arc"];
     files := [
       ("access.log", TextFile false
          (block [
            "PERIMETER ACCESS LOG";
            "Gate rejects unmasked access. Badge required.";
            "Attached note looks like rot13. See cipher.txt."]));
       ("cipher.txt", TextFile true
          ("rzore vf gur qevsg. gur nepuvir jnagf n onqtr naq n znfx."));
       ("badge.sig", ItemFile "badge.sig" true
          (block [
            "BADGE.SIG";
            "Issuer: Lotus-Kline perimeter";
            "Signature: 9f3a-77b1"]))] |}.

Definition node_archives_arc : Node :=
  {| title := "SABLE ARCHIVE";
     desc := block [
       "Cold stacks of memory and a faint relay tone.";
       "The archive is here, waiting."];
     entry := {| req_items := ["badge.sig"; "mask.dat"]; req_flags := ["ember_phrase"] |};
     links := ["perimeter.gate"; "weaver.den"; "lattice.cache"];
     files := [
       ("lore.log", TextFile false
          (block [
            "SABLE ARCHIVE INDEX";
            "The archive remembers the first operators and the patch that";
            "turned the net to drift. A relay called the Relic is folded";
            "inside. The old manifest warns: sigil stored in base64.";
            "The Lattice cache answers only to a token and a weaver mark."]));
       ("weaver.note", TextFile false
          (block [
            "SWITCHBOARD NOTE";
            "A Weaver den sits off-band. Run sniffer.s to locate it.";
            "They can stitch the token the lattice requires."]));
       ("key.b64", TextFile true
          ("U0lHSUw6IExBVFRJQ0U="));
       ("fork.s", ScriptFile "fork" true
          (block [
            "/* fork.s */";
            "function main() {";
            "  // Split a relay channel to expose the core.";
            "}"]))] |}.

Definition node_core_relic : Node :=
  {| title := "CORE RELIC";
     desc := block [
       "A buried relay and a voice in the static.";
       "You can feel the drift pull at the edges."];
     entry := {| req_items := ["relay.shard"; "relic.key"]; req_flags := ["lattice_sigil"; "forked"] |};
     links := ["archives.arc"];
     files := [
       ("core.log", TextFile false
          (block [
            "CORE RELIC";
            "The relic wakes. It asks for a choice.";
            "";
            "Type: exfiltrate  - lift it out into a private shell";
            "Type: restore     - bind it back to the Drift"]))] |}.

Definition nodes_table : list (string * Node) :=
  [("hub.home", node_hub_home);
   ("market.node", node_market_node);
   ("weaver.den", node_weaver_den);
   ("corp.audit", node_corp_audit);
   ("lattice.cache", node_lattice_cache);
   ("perimeter.gate", node_perimeter_gate);
   ("archives.arc", node_archives_arc);
   ("core.relic", node_core_relic)].

Definition help_text : string :=
  block [
    "Commands:";
    "  help                 show this list";
    "  scan                 list discovered nodes";
    "  connect <node>       jump to a node";
    "  ls                   list files in the node";
    "  cat <file>           read a file";
    "  download <file>      take a script or item";
    "  run <script>         execute a script in your kit";
    "  decode rot13|b64     decode the last cipher you read";
    "  inventory            list your scripts and items";
    "  profile              show your handle and status";
    "  log                  review your activity";
    "  home                 return to hub";
    "  save                 write a save file";
    "  load                 load save file";
    "  quit                 exit"].

Definition NODES : gmap string Node := list_to_map nodes_table.

(** Lookup in a dict kept in insertion order. *)
Fixpoint assoc {A} (k : string) (d : list (string * A)) : option A :=
  match d with
  | [] => None
  | (k', v) :: d' => if String.eqb k k' then Some v else assoc k d'
  end.

(** ** Player State *)

Record State := mkState {
  handle : string;
  location : string;
  inventory : gset string;
  scripts : gset string;
  flags : gset string;
  discovered : gset string;
  log : list string;
  visited : gset string;
  last_cipher : option string;
  ended : bool
}.

(** Assignments [state[key] = v]. *)
Definition set_location (v : string) (s : State) : State :=
  mkState (handle s) v (inventory s) (scripts s) (flags s) (discovered s)
          (log s) (visited s) (last_cipher s) (ended s).
Definition set_inventory (v : gset string) (s : State) : State :=
  mkState (handle s) (location s) v (scripts s) (flags s) (discovered s)
          (log s) (visited s) (last_cipher s) (ended s).
Definition set_scripts (v : gset string) (s : State) : State :=
  mkState (handle s) (location s) (inventory s) v (flags s) (discovered s)
          (log s) (visited s) (last_cipher s) (ended s).
Definition set_flags (v : gset string) (s : State) : State :=
  mkState (handle s) (location s) (inventory s) (scripts s) v (discovered s)
          (log s) (visited s) (last_cipher s) (ended s).
Definition set_discovered (v : gset string) (s : State) : State :=
  mkState (handle s) (location s) (inventory s) (scripts s) (flags s) v
          (log s) (visited s) (last_cipher s) (ended s).
Definition set_log (v : list string) (s : State) : State :=
  mkState (handle s) (location s) (inventory s) (scripts s) (flags s)
          (discovered s) v (visited s) (last_cipher s) (ended s).
Definition set_visited (v : gset string) (s : State) : State :=
  mkState (handle s) (location s) (inventory s) (scripts s) (flags s)
          (discovered s) (log s) v (last_cipher s) (ended s).
Definition set_last_cipher (v : option string) (s : State) : State :=
  mkState (handle s) (location s) (inventory s) (scripts s) (flags s)
          (discovered s) (log s) (visited s) v (ended s).
Definition set_ended (v : bool) (s : State) : State :=
  mkState (handle s) (location s) (inventory s) (scripts s) (flags s)
          (discovered s) (log s) (visited s) (last_cipher s) v.

(** [handle or "ghost"]: the empty string is falsy. *)
Definition fresh_state (handle : string) : State :=
  {| handle := if String.eqb handle "" then "ghost" else handle;
     location := "hub.home";
     inventory := ∅;
     scripts := ∅;
     flags := ∅;
     discovered := {["hub.home"]};
     log := [];
     visited := ∅;
     last_cipher := None;
     ended := false |}.

(** ** Handlers: state, output, exceptions *)

Inductive Exn := KeyError (key : string) | SystemExit.

Inductive Out := Show (text : string) | Print (text : string).

(** What a handler leaves behind: the dict it worked on, what it wrote to
    the terminal, and either its value or the exception that ended it. *)
Inductive Res (A : Type) :=
| Ok (a : A) (s : State) (out : list Out)
| Raised (e : Exn) (s : State) (out : list Out).
Arguments Ok {A} a s out.
Arguments Raised {A} e s out.

Definition M (A : Type) : Type := State → Res A.

#[global] Instance M_ret : MRet M := λ A a s, Ok a s [].
#[global] Instance M_bind : MBind M := λ A B f m s,
  match m s with
  | Ok a s1 o1 =>
      match f a s1 with
      | Ok b s2 o2 => Ok b s2 (o1 ++ o2)
      | Raised e s2 o2 => Raised e s2 (o1 ++ o2)
      end
  | Raised e s1 o1 => Raised e s1 o1
  end.

Definition get : M State := λ s, Ok s s [].
Definition put (s' : State) : M unit := λ _, Ok tt s' [].
Definition modify (f : State → State) : M unit := λ s, Ok tt (f s) [].
Definition raise {A} (e : Exn) : M A := λ s, Raised e s [].
Definition show (text : string) : M unit := λ s, Ok tt s [Show text].
Definition print (text : string) : M unit := λ s, Ok tt s [Print text].

Fixpoint for_each {A} (l : list A) (body : A → M unit) : M unit :=
  match l with
  | [] => mret tt
  | x :: l' => body x;; for_each l' body
  end.

Definition state_of {A} (r : Res A) : State :=
  match r with Ok _ s _ | Raised _ s _ => s end.
Definition out_of {A} (r : Res A) : list Out :=
  match r with Ok _ _ o | Raised _ _ o => o end.

(** [NODES[node_id]] *)
Definition node_at (node_id : string) : M Node :=
  match NODES !! node_id with
  | Some node => mret node
  | None => raise (KeyError node_id)
  end.

Definition log_event (text : string) : M unit :=
  modify (λ s, set_log (log s ++ [text]) s).

Fixpoint discover (nodes : list string) : M (list string) :=
  match nodes with
  | [] => mret []
  | node_id :: rest =>
      s ← get;
      if decide (node_id ∈ discovered s) then discover rest
      else
        modify (λ s, set_discovered ({[node_id]} ∪ discovered s) s);;
        added ← discover rest;
        mret (node_id :: added)
  end.

Definition is_nil {A} (l : list A) : bool :=
  match l with [] => true | _ => false end.

Definition requirements_for (node_id : string)
  : M (bool * list string * list string) :=
  node ← node_at node_id;
  s ← get;
  let missing_items := filter (λ item, item ∉ inventory s) (req_items (entry node)) in
  let missing_flags := filter (λ flag, flag ∉ flags s) (req_flags (entry node)) in
  let ok := is_nil missing_items && is_nil missing_flags in
  mret (ok, missing_items, missing_flags).

Definition enter_node (node_id : string) : M unit :=
  modify (set_location node_id);;
  s ← get;
  (if decide (node_id ∈ visited s) then mret tt
   else
     modify (λ s, set_visited ({[node_id]} ∪ visited s) s);;
     log_event ("Entered " +:+ node_id));;
  print "";;
  node ← node_at node_id;
  print (":: " +:+ node_id +:+ " :: " +:+ title node);;
  show (desc node).

Definition current_files : M (list (string * File)) :=
  s ← get;
  node ← node_at (location s);
  mret (files node).

(** ** Commands *)

Definition cmd_help (args : list string) : M unit := show help_text.

(** The [needs] list of [cmd_scan] and [cmd_connect]. *)
Definition needs_of (missing_items missing_flags : list string) : list string :=
  (if is_nil missing_items then []
   else ["items: " +:+ Py.join ", " missing_items]) ++
  (if is_nil missing_flags then []
   else ["signals: " +:+ Py.join ", " missing_flags]).

Definition cmd_scan (args : list string) : M unit :=
  s ← get;
  let nodes := Py.sorted (filter (λ n, n ≠ location s) (elements (discovered s))) in
  if is_nil nodes then show "No other signals."
  else
    show "Signals:";;
    for_each nodes (λ node_id,
      '(ok, missing_items, missing_flags) ← requirements_for node_id;
      let status := if ok : bool then "OPEN" else "LOCKED" in
      let line := "- " +:+ node_id +:+ " [" +:+ status +:+ "]" in
      print (if ok then line
             else line +:+ " (" +:+
                  Py.join "; " (needs_of missing_items missing_flags) +:+ ")")).

Definition cmd_connect (args : list string) : M unit :=
  match args with
  | [] => show "Connect where?"
  | node_id :: _ =>
      s ← get;
      if decide (node_id ∈ discovered s) then
        '(ok, missing_items, missing_flags) ← requirements_for node_id;
        if ok : bool then enter_node node_id
        else show ("Access denied. Missing " +:+
                   Py.join "; " (needs_of missing_items missing_flags) +:+ ".")
      else show "No signal by that name."
  end.

Definition cmd_ls (args : list string) : M unit :=
  files ← current_files;
  if is_nil files then show "No files in this node."
  else for_each files (λ '(name, meta),
         print ("- " +:+ name +:+ " (" +:+ file_type meta +:+ ")")).

(** [entry.get("cipher")] and [entry.get("downloadable")] *)
Definition file_cipher (f : File) : bool :=
  match f with TextFile c _ => c | _ => false end.
Definition file_downloadable (f : File) : bool :=
  match f with
  | TextFile _ _ => false
  | ScriptFile _ d _ | ItemFile _ d _ => d
  end.

Definition cmd_cat (args : list string) : M unit :=
  match args with
  | [] => show "Read which file?"
  | name :: _ =>
      files ← current_files;
      match assoc name files with
      | None => show "File not found."
      | Some entry =>
          let content := file_content entry in
          show content;;
          if file_cipher entry then
            modify (set_last_cipher (Some content));;
            log_event ("Read cipher " +:+ name)
          else mret tt
      end
  end.

Definition cmd_download (args : list string) : M unit :=
  match args with
  | [] => show "Download which file?"
  | name :: _ =>
      files ← current_files;
      match assoc name files with
      | None => show "File not found."
      | Some entry =>
          if negb (file_downloadable entry) then show "Nothing to download here."
          else match entry with
               | ScriptFile script_id _ _ =>
                   s ← get;
                   if decide (script_id ∈ scripts s)
                   then show "Script already in your kit."
                   else
                     modify (λ s, set_scripts ({[script_id]} ∪ scripts s) s);;
                     log_event ("Downloaded script " +:+ script_id);;
                     show ("Downloaded script: " +:+ script_id)
               | ItemFile item_id _ _ =>
                   s ← get;
                   if decide (item_id ∈ inventory s)
                   then show "Item already in your kit."
                   else
                     modify (λ s, set_inventory ({[item_id]} ∪ inventory s) s);;
                     log_event ("Downloaded item " +:+ item_id);;
                     show ("Downloaded item: " +:+ item_id)
               | TextFile _ _ => show "Nothing to download here."
               end
      end
  end.

Definition add_flag (flag : string) : M unit :=
  modify (λ s, set_flags ({[flag]} ∪ flags s) s).
Definition add_item (item : string) : M unit :=
  modify (λ s, set_inventory ({[item]} ∪ inventory s) s).

Definition splice_parts : list string := ["badge.sig"; "mask.dat"; "weaver.mark"].

Definition run_script (script_id : string) : M unit :=
  if String.eqb script_id "tracer" then
    added ← discover ["market.node"; "perimeter.gate"];
    add_flag "trace_open";;
    log_event "Tracer mapped the perimeter";;
    show "Tracer online. Mesh resolved.";;
    if is_nil added then mret tt
    else show ("New signals: " +:+ Py.join ", " added)
  else if String.eqb script_id "spoof" then
    s ← get;
    if decide ("mask.dat" ∈ inventory s) then show "Mask already minted."
    else
      add_item "mask.dat";;
      log_event "Minted mask.dat";;
      show "Mask minted: mask.dat"
  else if String.eqb script_id "sniffer" then
    s ← get;
    if decide ("sniffer_run" ∈ flags s)
    then show "Sniffer already swept the quiet bands."
    else
      add_flag "sniffer_run";;
      added ← discover ["weaver.den"; "corp.audit"; "lattice.cache"];
      log_event "Sniffer swept the quiet bands";;
      show "Sniffer pulse complete.";;
      if is_nil added then mret tt
      else show ("New signals: " +:+ Py.join ", " added)
  else if String.eqb script_id "splice" then
    s ← get;
    if decide ("token.key" ∈ inventory s) then show "Token already forged."
    else
      let missing := filter (λ item, item ∉ inventory s) splice_parts in
      if is_nil missing then
        add_item "token.key";;
        log_event "Spliced token.key";;
        show "Token forged: token.key"
      else show ("Splice failed. Missing: " +:+ Py.join ", " missing)
  else if String.eqb script_id "ghost" then
    s ← get;
    if decide ("ghosted" ∈ flags s) then show "Ghost protocol already active."
    else if decide ("weaver.mark" ∈ inventory s) then
      add_flag "ghosted";;
      added ← discover ["corp.audit"];
      log_event "Ghosted the audit trail";;
      show "Ghost protocol active. Your trail is cold.";;
      if is_nil added then mret tt
      else show ("New signal: " +:+ Py.join ", " added)
    else show "Ghost protocol requires weaver.mark."
  else if String.eqb script_id "fork" then
    s ← get;
    if decide ("forked" ∈ flags s) then show "Relay already forked."
    else
      add_flag "forked";;
      added ← discover ["core.relic"];
      log_event "Forked the relay to the core";;
      show "Relay forked. Core channel exposed.";;
      if is_nil added then mret tt
      else show "New signal: core.relic"
  else show "Script returned no response.".

Definition is_script (script_id : string) (f : File) : bool :=
  match f with
  | ScriptFile id _ _ => String.eqb id script_id
  | _ => false
  end.

Definition cmd_run (args : list string) : M unit :=
  match args with
  | [] => show "Run which script?"
  | raw :: _ =>
      let script_id := if Py.endswith raw ".s" then Py.drop_last 2 raw else raw in
      s ← get;
      if decide (script_id ∈ scripts s) then run_script script_id
      else
        files ← current_files;
        if existsb (λ '(_, entry), is_script script_id entry) files then
          run_script script_id;;
          show "Tip: download the script to keep it in your kit."
        else show "Script not found in your kit or this node."
  end.

Definition in_list (x : string) (l : list string) : bool :=
  existsb (String.eqb x) l.

(** A string that is [None] or empty is falsy. *)
Definition truthy (o : option string) : option string :=
  match o with
  | Some "" => None
  | _ => o
  end.

(** The decoding step of [cmd_decode]: [None] is the base64 failure. *)
Definition base64_text (payload : string) : option string :=
  Py.decode_utf8 <$> Py.b64decode payload.

(** The two flag checks that follow a decode. *)
Definition scan_decoded (result : string) : M unit :=
  let upper := Py.upper result in
  s ← get;
  (if Py.contains "EMBER" upper && bool_decide ("ember_phrase" ∉ flags s) then
     add_flag "ember_phrase";;
     log_event "Decoded ember phrase"
   else mret tt);;
  s ← get;
  if Py.contains "LATTICE" upper && bool_decide ("lattice_sigil" ∉ flags s) then
    add_flag "lattice_sigil";;
    log_event "Decoded lattice sigil"
  else mret tt.

Definition cmd_decode (args : list string) : M unit :=
  match args with
  | [] => show "Usage: decode rot13|b64 <text>"
  | arg0 :: rest =>
      let cipher := Py.lower arg0 in
      s ← get;
      let payload :=
        match truthy (if is_nil rest then None
                      else Some (Py.strip (Py.join " " rest))) with
        | Some p => Some p
        | None => truthy (last_cipher s)
        end in
      match payload with
      | None => show "No cached cipher. Read a cipher file first."
      | Some payload =>
          if in_list cipher ["rot13"; "rot"; "r13"] then
            let result := Py.rot_13 payload in
            show "Decoded:";; show result;; scan_decoded result
          else if in_list cipher ["b64"; "base64"] then
            match base64_text payload with
            | Some result =>
                show "Decoded:";; show result;; scan_decoded result
            | None => show "Base64 decode failed."
            end
          else show "Unknown cipher. Use rot13 or b64."
      end
  end.

Definition cmd_inventory (args : list string) : M unit :=
  s ← get;
  if bool_decide (scripts s = ∅) && bool_decide (inventory s = ∅)
  then show "Your kit is empty."
  else
    (if bool_decide (scripts s = ∅) then mret tt
     else print ("Scripts: " +:+ Py.join ", " (Py.sorted (elements (scripts s)))));;
    (if bool_decide (inventory s = ∅) then mret tt
     else print ("Items: " +:+ Py.join ", " (Py.sorted (elements (inventory s))))).

Definition cmd_profile (args : list string) : M unit :=
  s ← get;
  show ("Handle: " +:+ handle s);;
  show ("Location: " +:+ location s);;
  show ("Scripts: " +:+ Py.str_of_nat (size (scripts s)) +:+
        " | Items: " +:+ Py.str_of_nat (size (inventory s)));;
  show ("Signals: " +:+ Py.str_of_nat (size (discovered s))).

Definition cmd_log (args : list string) : M unit :=
  s ← get;
  if is_nil (log s) then show "Log is empty."
  else for_each (log s) (λ entry, print ("- " +:+ entry)).

Definition cmd_home (args : list string) : M unit := enter_node "hub.home".

Definition exfiltrate_text : string :=
  block ["You lift the relic into your shell. The Drift goes quiet behind you.";
         "A new story begins, sealed from the old net."].

Definition restore_text : string :=
  block ["You bind the relic back to the Drift. The net exhales.";
         "The archive sleeps, but its signal will haunt the edges."].

Definition cmd_exfiltrate (args : list string) : M unit :=
  s ← get;
  if String.eqb (location s) "core.relic" then
    show exfiltrate_text;;
    modify (set_ended true);;
    log_event "Ending: exfiltrate"
  else show "No target to exfiltrate here.".

Definition cmd_restore (args : list string) : M unit :=
  s ← get;
  if String.eqb (location s) "core.relic" then
    show restore_text;;
    modify (set_ended true);;
    log_event "Ending: restore"
  else show "No target to restore here.".

(** ** Persistence *)

(** The persisted record: a JSON object whose fields, when present, have
    the types that [serialize_state] writes.  [None] is an absent key (for
    [last_cipher], also [null]). *)
Record SaveData := {
  sv_handle : option string;
  sv_location : option string;
  sv_inventory : option (list string);
  sv_scripts : option (list string);
  sv_flags : option (list string);
  sv_discovered : option (list string);
  sv_log : option (list string);
  sv_visited : option (list string);
  sv_last_cipher : option string;
  sv_ended : option bool
}.

(** What is at [SAVE_PATH]: nothing, a file on which [load_state] raises
    (it cannot be opened or parsed, or its fields cannot be read), or a
    record. *)
Inductive Disk := NoFile | Unreadable | Saved (data : SaveData).

Definition serialize_state (s : State) : SaveData :=
  {| sv_handle := Some (handle s);
     sv_location := Some (location s);
     sv_inventory := Some (Py.sorted (elements (inventory s)));
     sv_scripts := Some (Py.sorted (elements (scripts s)));
     sv_flags := Some (Py.sorted (elements (flags s)));
     sv_discovered := Some (Py.sorted (elements (discovered s)));
     sv_log := Some (log s);
     sv_visited := Some (Py.sorted (elements (visited s)));
     sv_last_cipher := last_cipher s;
     sv_ended := Some (ended s) |}.

(** [set(data.get(key, []))] *)
Definition set_of (field : option (list string)) : gset string :=
  list_to_set (default [] field).

Definition load_state (data : SaveData) : State :=
  let state := fresh_state (default "ghost" (sv_handle data)) in
  let state := set_location (default "hub.home" (sv_location data)) state in
  let state := set_inventory (set_of (sv_inventory data)) state in
  let state := set_scripts (set_of (sv_scripts data)) state in
  let state := set_flags (set_of (sv_flags data)) state in
  let state := set_discovered (set_of (sv_discovered data)) state in
  let state := set_log (default [] (sv_log data)) state in
  let state := set_visited (set_of (sv_visited data)) state in
  let state := set_last_cipher (sv_last_cipher data) state in
  let state := set_ended (default false (sv_ended data)) state in
  if decide (location state ∈ discovered state) then state
  else set_discovered ({[location state]} ∪ discovered state) state.

(** [cmd_save] returns what it wrote to [SAVE_PATH]. *)
Definition cmd_save (args : list string) : M Disk :=
  s ← get;
  let data := serialize_state s in
  show "Saved to save.json";;
  mret (Saved data).

(** [cmd_load] returns the dict the command loop goes on with: the state of
    the computation after it. *)
Definition cmd_load (disk : Disk) (args : list string) : M unit :=
  match disk with
  | NoFile => show "No save file found."
  | Unreadable => show "Failed to load save file."
  | Saved data =>
      let new_state := load_state data in
      show "Save loaded.";;
      put new_state;;
      enter_node (location new_state)
  end.

(** ** Command dispatch *)

(** [handle_command] after [shlex.split]: [parts] is the token list. The
    value is the content of [SAVE_PATH] after the command. *)
Definition dispatch (disk : Disk) (parts : list string) : M Disk :=
  match parts with
  | [] => mret disk
  | part0 :: args =>
      let cmd := Py.lower part0 in
      if in_list cmd ["help"; "?"] then cmd_help args;; mret disk
      else if String.eqb cmd "scan" then cmd_scan args;; mret disk
      else if in_list cmd ["connect"; "go"] then cmd_connect args;; mret disk
      else if String.eqb cmd "ls" then cmd_ls args;; mret disk
      else if in_list cmd ["cat"; "read"] then cmd_cat args;; mret disk
      else if String.eqb cmd "download" then cmd_download args;; mret disk
      else if String.eqb cmd "run" then cmd_run args;; mret disk
      else if String.eqb cmd "decode" then cmd_decode args;; mret disk
      else if in_list cmd ["inventory"; "inv"] then cmd_inventory args;; mret disk
      else if String.eqb cmd "profile" then cmd_profile args;; mret disk
      else if String.eqb cmd "log" then cmd_log args;; mret disk
      else if String.eqb cmd "home" then cmd_home args;; mret disk
      else if String.eqb cmd "save" then cmd_save args
      else if String.eqb cmd "load" then cmd_load disk args;; mret disk
      else if String.eqb cmd "exfiltrate" then cmd_exfiltrate args;; mret disk
      else if String.eqb cmd "restore" then cmd_restore args;; mret disk
      else if in_list cmd ["quit"; "exit"; "q"] then raise SystemExit
      else show "Unknown command. Type help for options.";; mret disk
  end.

(** [shlex.split] is the command reader: [None] is its [ValueError]. *)
Definition handle_command (shlex_split : string → option (list string))
    (disk : Disk) (line : string) : M Disk :=
  match shlex_split line with
  | None => show "Malformed command.";; mret disk
  | Some parts => dispatch disk parts
  end.

(** ** Sessions *)

(** [main] up to the first prompt: the state of [start_state], entered. *)
Definition boot (state : State) : Res unit :=
  enter_node (location state) state.

(** The states the command loop can hold: after the start, fresh or from a
    record, and after every command that returns, whatever is at
    [SAVE_PATH] at that moment. *)
Inductive reachable : State → Prop :=
| reachable_fresh handle s out :
    boot (fresh_state handle) = Ok tt s out → reachable s
| reachable_resume data s out :
    boot (load_state data) = Ok tt s out → reachable s
| reachable_step s disk parts disk' s' out :
    reachable s → dispatch disk parts s = Ok disk' s' out → reachable s'.

(** ** Vocabulary of the statements *)

(** The exception that ended a handler, if any. *)
Definition exn_of {A} (r : Res A) : option Exn :=
  match r with Ok _ _ _ => None | Raised e _ _ => Some e end.


(** The state that [enter_node] leaves. *)
Definition entered (node_id : string) (s : State) : State :=
  if decide (node_id ∈ visited s) then set_location node_id s
  else set_log (log s ++ ["Entered " +:+ node_id])
         (set_visited ({[node_id]} ∪ visited s) (set_location node_id s)).

(** A record with a location and nothing else. *)
Definition record_at (node_id : string) : SaveData :=
  {| sv_handle := None; sv_location := Some node_id; sv_inventory := None;
     sv_scripts := None; sv_flags := None; sv_discovered := None;
     sv_log := None; sv_visited := None; sv_last_cipher := None;
     sv_ended := None |}.

(** A session that resumes from a record placed at [market.node] and then
    issues [home]. *)
Definition stray_resumed : State :=
  state_of (boot (load_state (record_at "market.node"))).
Definition stray_state : State :=
  state_of (dispatch NoFile ["home"] stray_resumed).

(** The player at [core.relic], resumed from a record. *)
Definition relic_state : State :=
  state_of (boot (load_state (record_at "core.relic"))).

(** A player who owns the badge and the mask but not the weaver mark. *)
Definition splice_blocked_state : State :=
  set_inventory {["badge.sig"; "mask.dat"]} (fresh_state "").

(** Two states that differ at most in [ended]. *)
Definition same_but_ended (s1 s2 : State) : Prop :=
  set_ended true s1 = set_ended true s2.

(** Two results that agree on the value or exception and on the output,
    with states that differ at most in [ended]. *)
Definition sim {A} (r1 r2 : Res A) : Prop :=
  match r1, r2 with
  | Ok a1 s1 o1, Ok a2 s2 o2 => a1 = a2 ∧ same_but_ended s1 s2 ∧ o1 = o2
  | Raised e1 s1 o1, Raised e2 s2 o2 => e1 = e2 ∧ same_but_ended s1 s2 ∧ o1 = o2
  | _, _ => False
  end.

(** A computation that does not look at [ended]. *)
Definition blind {A} (m : M A) : Prop :=
  ∀ s1 s2, same_but_ended s1 s2 → sim (m s1) (m s2).

(** Two results with the same output and the same exception, if any, whose
    states differ at most in [ended]. *)
Definition agree {A B} (r1 : Res A) (r2 : Res B) : Prop :=
  out_of r1 = out_of r2 ∧ exn_of r1 = exn_of r2 ∧
  same_but_ended (state_of r1) (state_of r2).

(** *** Footprints of the commands *)

(** The keys of the player state. *)
Inductive Field :=
| Handle | Location | Inventory | Scripts | Flags | Discovered | Log | Visited
| LastCipher | Ended.

#[global] Instance Field_eq_dec : EqDecision Field.
Proof. solve_decision. Defined.

(** The key [f] has the same value in [s] and [s']. *)
Definition unchanged (f : Field) (s s' : State) : Prop :=
  match f with
  | Handle => handle s' = handle s
  | Location => location s' = location s
  | Inventory => inventory s' = inventory s
  | Scripts => scripts s' = scripts s
  | Flags => flags s' = flags s
  | Discovered => discovered s' = discovered s
  | Log => log s' = log s
  | Visited => visited s' = visited s
  | LastCipher => last_cipher s' = last_cipher s
  | Ended => ended s' = ended s
  end.

(** From [s] to [s'] nothing was taken away: the sets only gained members,
    the log only gained entries at its end, an ending stayed an ending. *)
Definition grows (s s' : State) : Prop :=
  handle s' = handle s ∧
  inventory s ⊆ inventory s' ∧
  scripts s ⊆ scripts s' ∧
  flags s ⊆ flags s' ∧
  discovered s ⊆ discovered s' ∧
  visited s ⊆ visited s' ∧
  log s `prefix_of` log s' ∧
  (ended s = true → ended s' = true).

(** From [s] to [s'] nothing was taken away and only the keys [fs] may
    have changed. *)
Definition touches (fs : list Field) (s s' : State) : Prop :=
  grows s s' ∧ ∀ f, f ∉ fs → unchanged f s s'.

(** Whatever the start state, [m] ends, normally or not, in a state related
    to it by [R]. *)
Definition steps {A} (R : State → State → Prop) (m : M A) : Prop :=
  ∀ s, R s (state_of (m s)).

(** The keys that a command may change, by command name as [dispatch]
    tests it ([load] replaces the whole state and is not listed). *)
Definition footprint (cmd : string) : list Field :=
  if in_list cmd ["connect"; "go"] then [Location; Visited; Log]
  else if in_list cmd ["cat"; "read"] then [LastCipher; Log]
  else if String.eqb cmd "download" then [Inventory; Scripts; Log]
  else if String.eqb cmd "run" then [Inventory; Flags; Discovered; Log]
  else if String.eqb cmd "decode" then [Flags; Log]
  else if String.eqb cmd "home" then [Location; Visited; Log]
  else if String.eqb cmd "exfiltrate" then [Ended; Log]
  else if String.eqb cmd "restore" then [Ended; Log]
  else [].

(** *** Play from a fresh state *)

(** The sessions that start from a fresh state, with no readable save
    file at [SAVE_PATH], and in which the file is only written by [save]:
    what is at [SAVE_PATH] and the state of the command loop after every
    command that returns. *)
Inductive played : Disk → State → Prop :=
| played_start disk handle s out :
    (∀ data, disk ≠ Saved data) →
    boot (fresh_state handle) = Ok tt s out → played disk s
| played_step disk s parts disk' s' out :
    played disk s → dispatch disk parts s = Ok disk' s' out → played disk' s'.

(** The nodes that some script other than [fork] discovers, and the start
    node. *)
Definition edge_nodes : list string :=
  ["hub.home"; "market.node"; "perimeter.gate"; "weaver.den"; "corp.audit";
   "lattice.cache"].

(** A state in which the archive has not been reached. *)
Definition before_archive (s : State) : Prop :=
  handle s ≠ "" ∧
  location s ∈ discovered s ∧
  "hub.home" ∈ discovered s ∧
  (∀ n, n ∈ discovered s → n ∈ edge_nodes) ∧
  ("fork" ∉ scripts s) ∧
  ("forked" ∉ flags s) ∧
  ended s = false.

(** A save file written from such a state, or none. *)
Definition saved_before_archive (disk : Disk) : Prop :=
  match disk with
  | Saved data => ∃ s, before_archive s ∧ data = serialize_state s
  | _ => True
  end.

(** *** Canonical lists *)

(** The field lists the members of [X] in lexicographic order, each once. *)
Definition lists_in_order (field : option (list string)) (X : gset string) : Prop :=
  ∃ l, field = Some l ∧ StronglySorted Py.str_le l ∧ NoDup l ∧
       ∀ x, x ∈ l ↔ x ∈ X.

(** *** What every session keeps *)

(** The player has a name and stands at a node of the World Definition
    that is marked visited. *)
Definition settled (s : State) : Prop :=
  handle s ≠ "" ∧ location s ∈ visited s ∧ is_Some (NODES !! location s).

(** *** Open gates *)

(** Every item and flag that [node] requires is owned in [s]. *)
Definition meets (node : Node) (s : State) : Prop :=
  Forall (λ item, item ∈ inventory s) (req_items (entry node)) ∧
  Forall (λ flag, flag ∈ flags s) (req_flags (entry node)).

(** The current location is a node whose requirements are met. *)
Definition gate_open (s : State) : Prop :=
  ∃ node, NODES !! location s = Some node ∧ meets node s.

(** A save file written from a state before the archive with its gate
    open, or none. *)
Definition saved_in_play (disk : Disk) : Prop :=
  match disk with
  | Saved data => ∃ s, before_archive s ∧ gate_open s ∧ data = serialize_state s
  | _ => True
  end.

(** * Properties *)

Ltac run_m :=
  unfold mbind, M_bind, mret, M_ret, get, put, modify, raise, show, print,
    log_event, add_flag, add_item in *; simpl in *.

(** ** Decoding by rot13 *)

Section Rot13.






End Rot13.

(** ** Gate evaluator *)

Section Gate.

Lemma is_nil_filter_missing (owned : gset string) (required : list string) :
  is_nil (filter (λ x, x ∉ owned) required) = true ↔
  Forall (λ x, x ∈ owned) required.
Proof.
  induction required as [|x l IH]; simpl.
  - split; [constructor | done].
  - rewrite filter_cons, Forall_cons. destruct (decide (x ∉ owned)) as [Hx|Hx]; simpl.
    + split; [done | intros [? _]; done].
    + apply dec_stable in Hx. rewrite IH. tauto.
Qed.

Lemma requirements_for_eq N node s :
  NODES !! N = Some node →
  requirements_for N s =
    Ok (is_nil (filter (λ x, x ∉ inventory s) (req_items (entry node))) &&
        is_nil (filter (λ x, x ∉ flags s) (req_flags (entry node))),
        filter (λ x, x ∉ inventory s) (req_items (entry node)),
        filter (λ x, x ∉ flags s) (req_flags (entry node))) s [].
Proof. intros HN. unfold requirements_for, node_at. run_m. by rewrite HN. Qed.

(** C1. For a node of the World Definition the gate evaluator returns
    [ok = true] exactly when every required item is in the inventory and
    every required flag is in the flags; the missing items and flags are
    the required ones that the state lacks, in declared order; the state
    comes back as it was, nothing is printed, and a state with the same
    inventory and flags gets the same answer. *)
Theorem requirements_for_spec (N : string) (node : Node) (s : State) :
  NODES !! N = Some node →
  ∃ ok missing_items missing_flags,
    requirements_for N s = Ok (ok, missing_items, missing_flags) s [] ∧
    (ok = true ↔
       Forall (λ item, item ∈ inventory s) (req_items (entry node)) ∧
       Forall (λ flag, flag ∈ flags s) (req_flags (entry node))) ∧
    (ok = true ↔ missing_items = [] ∧ missing_flags = []) ∧
    missing_items = filter (λ item, item ∉ inventory s) (req_items (entry node)) ∧
    missing_flags = filter (λ flag, flag ∉ flags s) (req_flags (entry node)) ∧
    missing_items `sublist_of` req_items (entry node) ∧
    missing_flags `sublist_of` req_flags (entry node) ∧
    (∀ s', inventory s' = inventory s → flags s' = flags s →
           requirements_for N s' = Ok (ok, missing_items, missing_flags) s' []).
Proof.
  intros HN. eexists _, _, _. split; [by apply requirements_for_eq|].
  split_and!; try done.
  - rewrite andb_true_iff, !is_nil_filter_missing. done.
  - rewrite andb_true_iff.
    destruct (filter _ (req_items _)), (filter _ (req_flags _)); simpl;
      intuition congruence.
  - apply sublist_filter.
  - apply sublist_filter.
  - intros s' Hi Hf. rewrite (requirements_for_eq N node s' HN), Hi, Hf. done.
Qed.

Lemma requirements_for_spec_witness :
  ∃ missing_items missing_flags,
    requirements_for "lattice.cache" (fresh_state "") =
      Ok (false, missing_items, missing_flags) (fresh_state "") [] ∧
    missing_items = ["token.key"; "weaver.mark"] ∧
    missing_flags = ["lattice_sigil"].
Proof.
  destruct (requirements_for_spec "lattice.cache" node_lattice_cache
              (fresh_state "") eq_refl)
    as (ok & mi & mf & Hrun & _ & _ & Hmi & Hmf & _).
  exists mi, mf. rewrite Hrun. subst mi mf. vm_compute. done.
Defined.

End Gate.

(** ** Discovery *)

Section Discovery.

Lemma discover_run (ids : list string) (s : State) :
  ∃ added,
    discover ids s =
      Ok added (set_discovered (discovered s ∪ list_to_set ids) s) [] ∧
    added `sublist_of` ids ∧
    NoDup added ∧
    (∀ x, x ∈ added ↔ x ∈ ids ∧ x ∉ discovered s).
Proof.
  revert s. induction ids as [|a ids IH]; intros s.
  - exists []. split_and!.
    + simpl. unfold mret, M_ret. f_equal.
      destruct s; unfold set_discovered; simpl; f_equal. set_solver.
    + done.
    + constructor.
    + set_solver.
  - cbn [discover]. run_m. destruct (decide (a ∈ discovered s)) as [Ha|Ha].
    + destruct (IH s) as (added & Hrun & Hsub & Hnd & Hin).
      exists added. split_and!.
      * rewrite Hrun. simpl. f_equal.
        unfold set_discovered; simpl; f_equal. set_solver.
      * by apply sublist_cons.
      * done.
      * intros x. rewrite Hin. set_solver.
    + destruct (IH (set_discovered ({[a]} ∪ discovered s) s))
        as (added & Hrun & Hsub & Hnd & Hin).
      exists (a :: added). rewrite Hrun. simpl in *. split_and!.
      * f_equal. unfold set_discovered; simpl; f_equal. set_solver.
      * by apply sublist_skip.
      * constructor; [|done]. rewrite Hin. set_solver.
      * intros x. rewrite elem_of_cons, Hin. set_unfold.
        destruct (decide (x = a)) as [->|]; naive_solver.
Qed.

(** C7. [discover] adds to [discovered] exactly the ids that were not in
    it and changes nothing else; what it returns is a subsequence of the
    input, without repetition, made of the ids that were added; no entry
    is removed; a second call with the same ids changes nothing and
    returns the empty list. *)
Theorem discover_spec (ids : list string) (s : State) :
  ∃ added s',
    discover ids s = Ok added s' [] ∧
    s' = set_discovered (discovered s ∪ list_to_set ids) s ∧
    added `sublist_of` ids ∧
    NoDup added ∧
    (∀ x, x ∈ added ↔ x ∈ ids ∧ x ∉ discovered s) ∧
    (∀ x, x ∈ discovered s' ↔ x ∈ discovered s ∨ x ∈ added) ∧
    discovered s ⊆ discovered s' ∧
    discover ids s' = Ok [] s' [].
Proof.
  destruct (discover_run ids s) as (added & Hrun & Hsub & Hnd & Hin).
  eexists added, _. split; [exact Hrun|]. split_and!; try done.
  - intros x. rewrite Hin. simpl. set_unfold.
    destruct (decide (x ∈ discovered s)); tauto.
  - simpl. set_solver.
  - destruct (discover_run ids (set_discovered (discovered s ∪ list_to_set ids) s))
      as (added2 & Hrun2 & _ & _ & Hin2).
    rewrite Hrun2. simpl in *.
    assert (added2 = []) as ->.
    { destruct added2 as [|x l]; [done|].
      specialize (Hin2 x). set_solver. }
    f_equal. destruct s; unfold set_discovered; simpl; f_equal. set_solver.
Qed.

End Discovery.

(** ** Script effects: splice *)

Section Splice.

(** C5. When [token.key] is not owned and one of [badge.sig], [mask.dat],
    [weaver.mark] is missing, running [splice] prints the missing ones of
    the three, in that order, and leaves the state as it was. *)
Theorem splice_blocked (s : State) :
  "token.key" ∉ inventory s →
  ¬ ("badge.sig" ∈ inventory s ∧ "mask.dat" ∈ inventory s ∧
     "weaver.mark" ∈ inventory s) →
  ∃ missing,
    run_script "splice" s =
      Ok tt s [Show ("Splice failed. Missing: " +:+ Py.join ", " missing)] ∧
    missing ≠ [] ∧
    missing `sublist_of` ["badge.sig"; "mask.dat"; "weaver.mark"] ∧
    (∀ item, item ∈ missing ↔
             item ∈ ["badge.sig"; "mask.dat"; "weaver.mark"] ∧
             item ∉ inventory s) ∧
    missing = filter (λ item, item ∉ inventory s)
                ["badge.sig"; "mask.dat"; "weaver.mark"].
Proof.
  intros Htok Hmiss.
  exists (filter (λ item, item ∉ inventory s) splice_parts).
  assert (is_nil (filter (λ item, item ∉ inventory s) splice_parts) = false) as Hnil.
  { destruct (is_nil _) eqn:E; [|done].
    apply is_nil_filter_missing in E. exfalso. apply Hmiss.
    unfold splice_parts in E. rewrite !Forall_cons in E. tauto. }
  split_and!.
  - unfold run_script. cbn [String.eqb Ascii.eqb Bool.eqb]. run_m.
    destruct (decide ("token.key" ∈ inventory s)); [done|].
    fold splice_parts. rewrite Hnil. done.
  - intros E. rewrite E in Hnil. done.
  - apply sublist_filter.
  - intros item. rewrite list_elem_of_filter. tauto.
  - done.
Qed.

Lemma splice_blocked_witness :
  run_script "splice" splice_blocked_state =
    Ok tt splice_blocked_state [Show "Splice failed. Missing: weaver.mark"].
Proof.
  destruct (splice_blocked splice_blocked_state) as (missing & Hrun & _ & _ & _ & ->).
  - vm_compute. set_solver.
  - intros (_ & _ & H). revert H. vm_compute. set_solver.
  - rewrite Hrun. vm_compute. done.
Defined.

End Splice.

(** ** Decoding and the flags it unlocks *)

Section Decode.

Lemma append_String c (a b : string) : String c a +:+ b = String c (a +:+ b).
Proof. reflexivity. Qed.

Lemma append_empty (b : string) : "" +:+ b = b.
Proof. reflexivity. Qed.





Lemma scan_decoded_run (result : string) (s : State) :
  let e := Py.contains "EMBER" (Py.upper result) &&
           bool_decide ("ember_phrase" ∉ flags s) in
  let l := Py.contains "LATTICE" (Py.upper result) &&
           bool_decide ("lattice_sigil" ∉ flags s) in
  scan_decoded result s =
    Ok tt
      (set_log (log s ++ (if e then ["Decoded ember phrase"] else []) ++
                         (if l then ["Decoded lattice sigil"] else []))
         (set_flags ((if l then {["lattice_sigil"]} else ∅) ∪
                     (if e then {["ember_phrase"]} else ∅) ∪ flags s) s))
      [].
Proof.
  intros e l. unfold scan_decoded. run_m.
  assert (∀ X : gset string,
            bool_decide ("lattice_sigil" ∉ {["ember_phrase"]} ∪ X) =
            bool_decide ("lattice_sigil" ∉ X)) as Hind.
  { intros X. apply bool_decide_ext. set_solver. }
  destruct s as [h loc inv scr fl disc lg vis lc en]; simpl in *.
  destruct (Py.contains "EMBER" _), (Py.contains "LATTICE" _); simpl in *;
    subst e l; simpl;
    repeat (rewrite ?Hind; case_bool_decide; simpl);
    unfold set_log, set_flags; simpl; f_equal; f_equal;
    rewrite ?app_nil_r, <-?app_assoc; try done; set_solver.
Qed.




End Decode.

(** ** Transitions between nodes *)

Section Codec.

Lemma state_eq (s1 s2 : State) :
  handle s1 = handle s2 → location s1 = location s2 →
  inventory s1 = inventory s2 → scripts s1 = scripts s2 →
  flags s1 = flags s2 → discovered s1 = discovered s2 →
  log s1 = log s2 → visited s1 = visited s2 →
  last_cipher s1 = last_cipher s2 → ended s1 = ended s2 →
  s1 = s2.
Proof. destruct s1, s2; simpl; intros; by subst. Qed.

(** What [load_state] builds from a record. *)
Lemma load_state_fields (data : SaveData) :
  let s := load_state data in
  handle s = (if String.eqb (default "ghost" (sv_handle data)) "" then "ghost"
              else default "ghost" (sv_handle data)) ∧
  location s = default "hub.home" (sv_location data) ∧
  inventory s = set_of (sv_inventory data) ∧
  scripts s = set_of (sv_scripts data) ∧
  flags s = set_of (sv_flags data) ∧
  discovered s =
    {[default "hub.home" (sv_location data)]} ∪ set_of (sv_discovered data) ∧
  log s = default [] (sv_log data) ∧
  visited s = set_of (sv_visited data) ∧
  last_cipher s = sv_last_cipher data ∧
  ended s = default false (sv_ended data).
Proof.
  intros s. subst s. unfold load_state.
  cbn [handle location inventory scripts flags discovered log visited
       last_cipher ended set_ended set_last_cipher set_visited set_log
       set_discovered set_flags set_scripts set_inventory set_location
       fresh_state].
  destruct (decide _) as [Hin|Hin];
    cbn [handle location inventory scripts flags discovered log visited
         last_cipher ended set_ended set_last_cipher set_visited set_log
         set_discovered set_flags set_scripts set_inventory set_location
         fresh_state].
  - split_and!; try reflexivity. set_solver.
  - split_and!; reflexivity.
Qed.

End Codec.

Section Transitions.

Lemma enter_node_ok node_id node s :
  NODES !! node_id = Some node →
  enter_node node_id s =
    Ok tt (entered node_id s)
      [Print ""; Print (":: " +:+ node_id +:+ " :: " +:+ title node);
       Show (desc node)].
Proof.
  intros HN. unfold enter_node, entered, node_at. run_m. rewrite HN.
  destruct (decide (node_id ∈ visited s)); reflexivity.
Qed.

Lemma enter_node_raise node_id s :
  NODES !! node_id = None →
  enter_node node_id s = Raised (KeyError node_id) (entered node_id s) [Print ""].
Proof.
  intros HN. unfold enter_node, entered, node_at. run_m. rewrite HN.
  destruct (decide (node_id ∈ visited s)); reflexivity.
Qed.

Lemma entered_fields node_id s :
  location (entered node_id s) = node_id ∧
  inventory (entered node_id s) = inventory s ∧
  flags (entered node_id s) = flags s ∧
  discovered (entered node_id s) = discovered s.
Proof. unfold entered. by destruct (decide _). Qed.

Lemma requirements_for_raise N s :
  NODES !! N = None → requirements_for N s = Raised (KeyError N) s [].
Proof. intros HN. unfold requirements_for, node_at. run_m. by rewrite HN. Qed.

(** The three ways [connect] can end. *)
Lemma cmd_connect_cases args s :
  (state_of (cmd_connect args s) = s) ∨
  (∃ node_id rest node,
      args = node_id :: rest ∧
      NODES !! node_id = Some node ∧
      node_id ∈ discovered s ∧
      requirements_for node_id s = Ok (true, [], []) s [] ∧
      state_of (cmd_connect args s) = entered node_id s).
Proof.
  unfold cmd_connect. destruct args as [|node_id rest]; [by left|].
  unfold mbind, M_bind, get.
  destruct (decide (node_id ∈ discovered s)) as [Hd|Hd]; [|by left].
  destruct (NODES !! node_id) as [node|] eqn:HN.
  - rewrite (requirements_for_eq _ _ _ HN).
    destruct (is_nil (filter _ (req_items _)) && is_nil (filter _ (req_flags _)))
      eqn:Hok; [|by left].
    right. exists node_id, rest, node. rewrite (enter_node_ok _ _ _ HN).
    split_and!; try done.
    rewrite (requirements_for_eq _ _ _ HN).
    apply andb_true_iff in Hok as [Hi Hf].
    destruct (filter _ (req_items _)), (filter _ (req_flags _)); done.
  - rewrite (requirements_for_raise _ _ HN). by left.
Qed.

(** C2, as the code has it.  [connect] and [home] only move the player to
    a node whose gate evaluates to [ok = true] on the state of that
    moment.  [load] does not evaluate the gate: a record whose location
    names a node is installed with that location, its own inventory and
    its own flags, and the gate holds for the new location exactly when
    the record's inventory and flags meet the node's requirements. *)
Theorem gate_on_transitions :
  (∀ s args,
      location (state_of (cmd_connect args s)) ≠ location s →
      requirements_for (location (state_of (cmd_connect args s))) s =
        Ok (true, [], []) s []) ∧
  (∀ s args,
      location (state_of (cmd_home args s)) = "hub.home" ∧
      requirements_for "hub.home" s = Ok (true, [], []) s []) ∧
  (∀ s args data node,
      NODES !! default "hub.home" (sv_location data) = Some node →
      ∃ s' out ok missing_items missing_flags,
        cmd_load (Saved data) args s = Ok tt s' out ∧
        location s' = default "hub.home" (sv_location data) ∧
        inventory s' = set_of (sv_inventory data) ∧
        flags s' = set_of (sv_flags data) ∧
        requirements_for (location s') s' =
          Ok (ok, missing_items, missing_flags) s' [] ∧
        (ok = true ↔
           Forall (λ item, item ∈ set_of (sv_inventory data))
                  (req_items (entry node)) ∧
           Forall (λ flag, flag ∈ set_of (sv_flags data))
                  (req_flags (entry node)))).
Proof.
  split_and!.
  - intros s args Hmove.
    destruct (cmd_connect_cases args s)
      as [Hsame|(node_id & rest & node & _ & _ & _ & Hreq & Hs')].
    + by rewrite Hsame in Hmove.
    + rewrite Hs'. by destruct (entered_fields node_id s) as (-> & _).
  - intros s args. split.
    + unfold cmd_home. rewrite (enter_node_ok "hub.home" node_hub_home s eq_refl).
      simpl. apply entered_fields.
    + by rewrite (requirements_for_eq "hub.home" node_hub_home s eq_refl).
  - intros s args data node HN.
    assert (location (load_state data) = default "hub.home" (sv_location data)
            ∧ inventory (load_state data) = set_of (sv_inventory data)
            ∧ flags (load_state data) = set_of (sv_flags data)) as (Hl & Hi & Hf).
    { unfold load_state. by destruct (decide _). }
    unfold cmd_load. run_m. rewrite Hl, (enter_node_ok _ _ _ HN). simpl.
    destruct (entered_fields (default "hub.home" (sv_location data))
                (load_state data)) as (Hel & Hei & Hef & _).
    destruct (requirements_for_spec (default "hub.home" (sv_location data)) node
                (entered (default "hub.home" (sv_location data)) (load_state data)) HN)
      as (ok & mi & mf & Hreq & Hok & _).
    exists (entered (default "hub.home" (sv_location data)) (load_state data)).
    eexists _, ok, mi, mf. split; [done|].
    rewrite Hel, Hei, Hef, Hi, Hf in *. done.
Qed.

Lemma gate_on_transitions_witness :
  ∃ s', cmd_load (Saved (record_at "market.node")) [] (fresh_state "x") =
          Ok tt s' [Show "Save loaded."; Print "";
                    Print ":: market.node :: SCRAP EXCHANGE";
                    Show (desc node_market_node)] ∧
        location s' = "market.node" ∧
        ∃ missing_flags,
          requirements_for "market.node" s' = Ok (false, [], missing_flags) s' [].
Proof.
  destruct (proj2 (proj2 gate_on_transitions) (fresh_state "x") []
              (record_at "market.node") node_market_node eq_refl)
    as (s' & out & ok & mi & mf & Hrun & Hloc & _ & _ & Hreq & _).
  exists s'. vm_compute in Hrun. injection Hrun as <- <-.
  split; [reflexivity|]. split; [reflexivity|].
  eexists. vm_compute. reflexivity.
Defined.

(** C2, counterexample.  The record places the player at [core.relic]
    with an empty inventory and no flag; [load] installs it, although
    the gate of [core.relic] is closed for that state. *)
Lemma load_skips_gate :
  ∃ s' out,
    cmd_load (Saved (record_at "core.relic")) [] (fresh_state "") = Ok tt s' out ∧
    location s' = "core.relic" ∧
    inventory s' = ∅ ∧ flags s' = ∅ ∧
    requirements_for "core.relic" s' =
      Ok (false, ["relay.shard"; "relic.key"], ["lattice_sigil"; "forked"]) s' [].
Proof.
  destruct (load_state_fields (record_at "core.relic"))
    as (_ & Hl & Hi & _ & Hf & _).
  destruct (entered_fields "core.relic" (load_state (record_at "core.relic")))
    as (Hel & Hei & Hef & _).
  exists (entered "core.relic" (load_state (record_at "core.relic"))).
  eexists. split_and!.
  - unfold cmd_load, mbind, M_bind, show, put. rewrite Hl.
    cbn [record_at sv_location default from_option id].
    rewrite (enter_node_ok "core.relic" node_core_relic _ eq_refl). reflexivity.
  - exact Hel.
  - by rewrite Hei, Hi.
  - by rewrite Hef, Hf.
  - rewrite (requirements_for_eq "core.relic" node_core_relic _ eq_refl).
    rewrite Hei, Hef, Hi, Hf. reflexivity.
Qed.

End Transitions.

(** ** Persistence and sessions *)

Section Persistence.

Lemma sorted_elements (X : gset string) :
  list_to_set (Py.sorted (elements X)) = X.
Proof.
  apply set_eq. intros x. rewrite elem_of_list_to_set.
  unfold Py.sorted. rewrite merge_sort_Permutation. apply elem_of_elements.
Qed.

(** The round trip holds on every state with a handle and with its
    location among the discovered nodes. *)
Lemma load_serialize (s : State) :
  handle s ≠ "" → location s ∈ discovered s →
  load_state (serialize_state s) = s.
Proof.
  intros Hh Hd.
  destruct (load_state_fields (serialize_state s))
    as (H1 & H2 & H3 & H4 & H5 & H6 & H7 & H8 & H9 & H10).
  unfold set_of in *.
  cbn [serialize_state sv_handle sv_location sv_inventory sv_scripts sv_flags
       sv_discovered sv_log sv_visited sv_last_cipher sv_ended default
       from_option id] in *.
  apply state_eq; try done.
  - rewrite H1. destruct (handle s); done.
  - by rewrite H3, sorted_elements.
  - by rewrite H4, sorted_elements.
  - by rewrite H5, sorted_elements.
  - rewrite H6, sorted_elements. set_solver.
  - by rewrite H8, sorted_elements.
Qed.

Lemma stray_reachable : reachable stray_state.
Proof.
  apply (reachable_step stray_resumed NoFile ["home"] NoFile stray_state
           (out_of (dispatch NoFile ["home"] stray_resumed))).
  - apply (reachable_resume (record_at "market.node") stray_resumed
             (out_of (boot (load_state (record_at "market.node"))))).
    vm_compute. reflexivity.
  - vm_compute. reflexivity.
Qed.

Lemma stray_discovered : discovered stray_state = {["market.node"]}.
Proof. vm_compute. reflexivity. Qed.

(** C8, evaluated where the code departs from it.  A fresh state is at
    [hub.home] with [hub.home] as its only discovered node, and
    [load_state] always leaves the loaded location among the discovered
    nodes.  But a record that names [market.node] and has no [discovered]
    field is loaded with [discovered = {market.node}]; [home] then moves
    the player to [hub.home], which is not in [discovered]. *)
Theorem home_leaves_discovered :
  (∀ handle, location (fresh_state handle) = "hub.home" ∧
             discovered (fresh_state handle) = {["hub.home"]}) ∧
  (∀ data, location (load_state data) ∈ discovered (load_state data)) ∧
  reachable stray_state ∧
  location stray_resumed ∈ discovered stray_resumed ∧
  location stray_state = "hub.home" ∧
  discovered stray_state = {["market.node"]} ∧
  location stray_state ∉ discovered stray_state.
Proof.
  split; [by intros handle|].
  split.
  { intros data.
    destruct (load_state_fields data) as (_ & -> & _ & _ & _ & -> & _).
    apply elem_of_union_l. by apply elem_of_singleton. }
  split; [apply stray_reachable|].
  assert (location stray_state = "hub.home") as Hloc by (vm_compute; reflexivity).
  split_and!.
  - change (location stray_resumed) with "market.node".
    change (discovered stray_resumed) with (discovered stray_state).
    rewrite stray_discovered. by apply elem_of_singleton.
  - exact Hloc.
  - exact stray_discovered.
  - rewrite Hloc, stray_discovered. intros Hin.
    apply elem_of_singleton in Hin. discriminate Hin.
Qed.

(** C3, evaluated where the code departs from it.  The state reached by
    resuming at [market.node] and going [home] does not survive the round
    trip: deserialization adds [hub.home] to [discovered]. *)
Theorem round_trip_adds_location :
  reachable stray_state ∧
  discovered stray_state = {["market.node"]} ∧
  discovered (load_state (serialize_state stray_state)) =
    {["hub.home"; "market.node"]} ∧
  load_state (serialize_state stray_state) ≠ stray_state.
Proof.
  split; [apply stray_reachable|].
  assert (discovered (load_state (serialize_state stray_state)) =
          {["hub.home"; "market.node"]}) as Hrt.
  { destruct (load_state_fields (serialize_state stray_state))
      as (_ & _ & _ & _ & _ & -> & _).
    unfold set_of.
    cbn [serialize_state sv_location sv_discovered default from_option id].
    rewrite sorted_elements, stray_discovered.
    change (location stray_state) with "hub.home". reflexivity. }
  split_and!.
  - exact stray_discovered.
  - exact Hrt.
  - intros E. apply (f_equal discovered) in E.
    rewrite Hrt, stray_discovered in E.
    assert ("hub.home" ∈ ({["market.node"]} : gset string)) as Hin.
    { rewrite <-E. apply elem_of_union_l. by apply elem_of_singleton. }
    apply elem_of_singleton in Hin. discriminate Hin.
Qed.

(** C6, evaluated where the code departs from it.  A missing or
    unreadable save file is reported and the state is kept.  A record
    whose location is not a node of the World Definition is announced as
    loaded and then [enter_node] raises [KeyError] outside the handler of
    [cmd_load]: the command returns no state and the exception reaches
    the top of the process. *)
Theorem load_unknown_location (s : State) :
  dispatch NoFile ["load"] s = Ok NoFile s [Show "No save file found."] ∧
  dispatch Unreadable ["load"] s =
    Ok Unreadable s [Show "Failed to load save file."] ∧
  dispatch (Saved (record_at "nowhere")) ["load"] s =
    Raised (KeyError "nowhere")
      (entered "nowhere" (load_state (record_at "nowhere")))
      [Show "Save loaded."; Print ""].
Proof.
  assert (∀ disk, dispatch disk ["load"] s = (cmd_load disk [];; mret disk) s)
    as Hd by reflexivity.
  rewrite !Hd. split; [reflexivity|]. split; [reflexivity|].
  unfold cmd_load. unfold mbind, M_bind, show, put.
  change (location (load_state (record_at "nowhere"))) with "nowhere".
  by rewrite (enter_node_raise "nowhere" _ eq_refl).
Qed.

End Persistence.

(** ** The ended flag *)

Create HintDb blind.

Section Ended.

Lemma same_but_ended_fields s1 s2 :
  same_but_ended s1 s2 →
  handle s2 = handle s1 ∧ location s2 = location s1 ∧
  inventory s2 = inventory s1 ∧ scripts s2 = scripts s1 ∧
  flags s2 = flags s1 ∧ discovered s2 = discovered s1 ∧
  log s2 = log s1 ∧ visited s2 = visited s1 ∧
  last_cipher s2 = last_cipher s1.
Proof.
  unfold same_but_ended, set_ended. intros [= -> -> -> -> -> -> -> -> ->].
  done.
Qed.

Lemma same_but_ended_intro s1 s2 :
  handle s2 = handle s1 → location s2 = location s1 →
  inventory s2 = inventory s1 → scripts s2 = scripts s1 →
  flags s2 = flags s1 → discovered s2 = discovered s1 →
  log s2 = log s1 → visited s2 = visited s1 →
  last_cipher s2 = last_cipher s1 →
  same_but_ended s1 s2.
Proof.
  unfold same_but_ended, set_ended. by intros -> -> -> -> -> -> -> -> ->.
Qed.

Lemma same_but_ended_refl s : same_but_ended s s.
Proof. reflexivity. Qed.

Lemma blind_ret {A} (a : A) : blind (mret a).
Proof. intros s1 s2 Hs. simpl. done. Qed.

Lemma blind_show text : blind (show text).
Proof. intros s1 s2 Hs. simpl. done. Qed.

Lemma blind_print text : blind (print text).
Proof. intros s1 s2 Hs. simpl. done. Qed.

Lemma blind_raise {A} e : blind (@raise A e).
Proof. intros s1 s2 Hs. simpl. done. Qed.

Lemma blind_put s : blind (put s).
Proof. intros s1 s2 Hs. simpl. done. Qed.

Lemma blind_bind {A B} (m : M A) (f : A → M B) :
  blind m → (∀ a, blind (f a)) → blind (m ≫= f).
Proof.
  intros Hm Hf s1 s2 Hs. unfold mbind, M_bind.
  specialize (Hm s1 s2 Hs).
  destruct (m s1) as [a1 t1 o1|e1 t1 o1], (m s2) as [a2 t2 o2|e2 t2 o2];
    simpl in Hm; try done.
  destruct Hm as (-> & Ht & ->). specialize (Hf a2 t1 t2 Ht).
  destruct (f a2 t1), (f a2 t2); simpl in *; try done.
  - destruct Hf as (-> & ? & ->). done.
  - destruct Hf as (-> & ? & ->). done.
Qed.

(** After [s ← get], the rest may use every field of [s] but [ended]. *)
Lemma blind_get_bind {B} (f : State → M B) :
  (∀ s1 s2, same_but_ended s1 s2 → f s2 = f s1 ∧ blind (f s1)) →
  blind (get ≫= f).
Proof.
  intros Hf s1 s2 Hs. unfold mbind, M_bind, get.
  destruct (Hf s1 s2 Hs) as [-> Hb]. specialize (Hb s1 s2 Hs).
  destruct (f s1 s1), (f s1 s2); simpl in *; try done.
Qed.

Lemma blind_modify (f : State → State) :
  (∀ s1 s2, same_but_ended s1 s2 → same_but_ended (f s1) (f s2)) →
  blind (modify f).
Proof. intros Hf s1 s2 Hs. simpl. auto. Qed.

Lemma blind_for_each {A} (l : list A) (body : A → M unit) :
  (∀ x, blind (body x)) → blind (for_each l body).
Proof.
  intros Hb. induction l as [|x l IH]; simpl.
  - apply blind_ret.
  - apply blind_bind; [apply Hb | intros _; apply IH].
Qed.

End Ended.

#[global] Hint Resolve blind_ret blind_show blind_print blind_raise blind_put
  : blind.

(** Field updates keep two states equal up to [ended]. *)
Ltac same_fields :=
  let s1 := fresh "s" in let s2 := fresh "s" in let Hs := fresh "Hs" in
  intros s1 s2 Hs;
  apply same_but_ended_fields in Hs;
  destruct Hs as (? & ? & ? & ? & ? & ? & ? & ? & ?);
  apply same_but_ended_intro;
  cbn [handle location inventory scripts flags discovered log visited
       last_cipher ended set_location set_inventory set_scripts set_flags
       set_discovered set_log set_visited set_last_cipher set_ended];
  congruence.

(** One step through a handler: sequencing, reads of the state, branches. *)
Ltac blind_get :=
  let s1 := fresh "s" in let s2 := fresh "s" in let Hs := fresh "Hs" in
  apply blind_get_bind; intros s1 s2 Hs; cbv beta; split;
  [ apply same_but_ended_fields in Hs;
    destruct Hs as (Hh & Hl & Hi & Hsc & Hf & Hd & Hlg & Hv & Hc);
    rewrite ?Hh, ?Hl, ?Hi, ?Hsc, ?Hf, ?Hd, ?Hlg, ?Hv, ?Hc; reflexivity
  | clear s2 Hs ].

Ltac blind_step :=
  first
    [ progress cbv beta zeta
    | solve [auto with blind]
    | lazymatch goal with
      | |- blind (modify _) => apply blind_modify; solve [same_fields]
      | |- blind (get ≫= _) => blind_get
      | |- blind (_ ≫= _) => apply blind_bind; [|intros ?]
      | |- blind (for_each _ _) => apply blind_for_each; intros ?
      | |- blind (match ?x with _ => _ end) => destruct x
      end ].

Ltac blind_auto := repeat blind_step.

Section EndedCommands.

Lemma blind_log_event text : blind (log_event text).
Proof. unfold log_event. blind_auto. Qed.

Lemma blind_add_flag flag : blind (add_flag flag).
Proof. unfold add_flag. blind_auto. Qed.

Lemma blind_add_item item : blind (add_item item).
Proof. unfold add_item. blind_auto. Qed.

Lemma blind_node_at node_id : blind (node_at node_id).
Proof. unfold node_at. blind_auto. Qed.

Hint Resolve blind_log_event blind_add_flag blind_add_item blind_node_at : blind.

Lemma blind_discover nodes : blind (discover nodes).
Proof.
  induction nodes as [|node_id rest IH]; cbn [discover]; blind_auto.
Qed.

Lemma blind_requirements_for node_id : blind (requirements_for node_id).
Proof. unfold requirements_for. blind_auto. Qed.

Lemma blind_enter_node node_id : blind (enter_node node_id).
Proof. unfold enter_node. blind_auto. Qed.

Lemma blind_current_files : blind current_files.
Proof. unfold current_files. blind_auto. Qed.

Hint Resolve blind_discover blind_requirements_for blind_enter_node
  blind_current_files : blind.

Lemma blind_run_script script_id : blind (run_script script_id).
Proof. unfold run_script. blind_auto. Qed.

Lemma blind_scan_decoded result : blind (scan_decoded result).
Proof. unfold scan_decoded. blind_auto. Qed.

Hint Resolve blind_run_script blind_scan_decoded : blind.

Lemma blind_cmd_help args : blind (cmd_help args).
Proof. unfold cmd_help. blind_auto. Qed.

Lemma blind_cmd_scan args : blind (cmd_scan args).
Proof. unfold cmd_scan. blind_auto. Qed.

Lemma blind_cmd_connect args : blind (cmd_connect args).
Proof. unfold cmd_connect. blind_auto. Qed.

Lemma blind_cmd_ls args : blind (cmd_ls args).
Proof. unfold cmd_ls. blind_auto. Qed.

Lemma blind_cmd_cat args : blind (cmd_cat args).
Proof. unfold cmd_cat. blind_auto. Qed.

Lemma blind_cmd_download args : blind (cmd_download args).
Proof. unfold cmd_download. blind_auto. Qed.

Lemma blind_cmd_run args : blind (cmd_run args).
Proof. unfold cmd_run. blind_auto. Qed.

Lemma blind_cmd_decode args : blind (cmd_decode args).
Proof. unfold cmd_decode. blind_auto. Qed.

Lemma blind_cmd_inventory args : blind (cmd_inventory args).
Proof. unfold cmd_inventory. blind_auto. Qed.

Lemma blind_cmd_profile args : blind (cmd_profile args).
Proof. unfold cmd_profile. blind_auto. Qed.

Lemma blind_cmd_log args : blind (cmd_log args).
Proof. unfold cmd_log. blind_auto. Qed.

Lemma blind_cmd_home args : blind (cmd_home args).
Proof. unfold cmd_home. blind_auto. Qed.

Lemma blind_cmd_exfiltrate args : blind (cmd_exfiltrate args).
Proof. unfold cmd_exfiltrate. blind_auto. Qed.

Lemma blind_cmd_restore args : blind (cmd_restore args).
Proof. unfold cmd_restore. blind_auto. Qed.

Lemma blind_cmd_load disk args : blind (cmd_load disk args).
Proof. unfold cmd_load. blind_auto. Qed.

End EndedCommands.

Section EndedDispatch.

Lemma sim_agree {A} (r1 r2 : Res A) : sim r1 r2 → agree r1 r2.
Proof.
  destruct r1, r2; simpl; try done; intros (-> & Hs & ->); by repeat split.
Qed.

Lemma then_ret_agree {A} (m : M A) (disk : Disk) s1 s2 :
  blind m → same_but_ended s1 s2 →
  agree ((m;; mret disk) s1) ((m;; mret disk) s2).
Proof.
  intros Hm Hs. apply sim_agree.
  apply (blind_bind m (λ _, mret disk)); [done| |done].
  intros _. apply blind_ret.
Qed.

Lemma cmd_save_agree args s1 s2 :
  same_but_ended s1 s2 → agree (cmd_save args s1) (cmd_save args s2).
Proof. intros Hs. unfold cmd_save. run_m. by repeat split. Qed.

Lemma dispatch_agree disk parts s1 s2 :
  same_but_ended s1 s2 →
  agree (dispatch disk parts s1) (dispatch disk parts s2).
Proof.
  intros Hs. unfold dispatch. destruct parts as [|part0 args].
  { by repeat split. }
  cbv zeta.
  repeat match goal with
         | |- agree ((if ?c then _ else _) _) _ => destruct c
         end;
    try (apply then_ret_agree; [|done]).
  all: auto using blind_cmd_help, blind_cmd_scan, blind_cmd_connect,
    blind_cmd_ls, blind_cmd_cat, blind_cmd_download, blind_cmd_run,
    blind_cmd_decode, blind_cmd_inventory, blind_cmd_profile, blind_cmd_log,
    blind_cmd_home, blind_cmd_load, blind_cmd_exfiltrate, blind_cmd_restore,
    blind_show, cmd_save_agree.
  by repeat split.
Qed.

Lemma cmd_restore_at_relic args s :
  location s = "core.relic" →
  cmd_restore args s =
    Ok tt (set_log (log s ++ ["Ending: restore"]) (set_ended true s))
       [Show restore_text].
Proof. intros Hl. unfold cmd_restore. run_m. by rewrite Hl. Qed.

Lemma cmd_exfiltrate_at_relic args s :
  location s = "core.relic" →
  cmd_exfiltrate args s =
    Ok tt (set_log (log s ++ ["Ending: exfiltrate"]) (set_ended true s))
       [Show exfiltrate_text].
Proof. intros Hl. unfold cmd_exfiltrate. run_m. by rewrite Hl. Qed.

(** C4, as the code has it.  No command consults [ended]: run on a state
    and on the same state with [ended] set either way, a command prints
    the same, raises the same, and leaves states that differ at most in
    [ended].  In particular, after an ending at [core.relic], [restore]
    appends its own event to the log and changes nothing else. *)
Theorem ended_not_consulted :
  (∀ disk parts s b,
      out_of (dispatch disk parts (set_ended b s)) =
        out_of (dispatch disk parts s) ∧
      exn_of (dispatch disk parts (set_ended b s)) =
        exn_of (dispatch disk parts s) ∧
      same_but_ended (state_of (dispatch disk parts (set_ended b s)))
                     (state_of (dispatch disk parts s))) ∧
  (∀ disk s,
      location s = "core.relic" → ended s = true →
      dispatch disk ["restore"] s =
        Ok disk (set_log (log s ++ ["Ending: restore"]) s) [Show restore_text]).
Proof.
  split.
  - intros disk parts s b. apply dispatch_agree. by destruct s.
  - intros disk s Hl He.
    change (dispatch disk ["restore"] s) with ((cmd_restore [];; mret disk) s).
    unfold mbind, M_bind. rewrite (cmd_restore_at_relic [] s Hl).
    simpl. do 2 f_equal. destruct s; simpl in *. by subst.
Qed.

Lemma relic_reachable : reachable relic_state.
Proof.
  apply (reachable_resume (record_at "core.relic") relic_state
           (out_of (boot (load_state (record_at "core.relic"))))).
  vm_compute. reflexivity.
Qed.

Lemma ended_not_consulted_witness :
  dispatch NoFile ["restore"] (set_ended true relic_state) =
    Ok NoFile (set_log (log relic_state ++ ["Ending: restore"])
                 (set_ended true relic_state))
       [Show restore_text].
Proof.
  apply (proj2 ended_not_consulted NoFile (set_ended true relic_state));
    vm_compute; reflexivity.
Defined.

Lemma restore_after_exfiltrate s :
  location s = "core.relic" →
  ∃ s1 out1 s2 out2,
    dispatch NoFile ["exfiltrate"] s = Ok NoFile s1 out1 ∧
    ended s1 = true ∧
    dispatch NoFile ["restore"] s1 = Ok NoFile s2 out2 ∧
    log s2 = log s1 ++ ["Ending: restore"] ∧
    s2 ≠ s1.
Proof.
  intros Hl.
  assert (∀ t, dispatch NoFile ["exfiltrate"] t = (cmd_exfiltrate [];; mret NoFile) t)
    as He by reflexivity.
  assert (∀ t, dispatch NoFile ["restore"] t = (cmd_restore [];; mret NoFile) t)
    as Hr by reflexivity.
  exists (set_log (log s ++ ["Ending: exfiltrate"]) (set_ended true s)).
  eexists. eexists. eexists. split_and!.
  - rewrite He. unfold mbind, M_bind.
    rewrite (cmd_exfiltrate_at_relic [] _ Hl). reflexivity.
  - reflexivity.
  - rewrite Hr. unfold mbind, M_bind.
    rewrite cmd_restore_at_relic by exact Hl. reflexivity.
  - reflexivity.
  - intros E. apply (f_equal (λ t, length (log t))) in E.
    cbn [log set_log set_ended] in E. rewrite !length_app in E.
    cbn [length] in E. lia.
Qed.

(** C4, counterexample.  The player, at [core.relic], ends the game with
    [exfiltrate]; [restore] then adds an event to the log. *)
Lemma restore_after_ending :
  reachable relic_state ∧
  ∃ s1 out1 s2 out2,
    dispatch NoFile ["exfiltrate"] relic_state = Ok NoFile s1 out1 ∧
    ended s1 = true ∧
    dispatch NoFile ["restore"] s1 = Ok NoFile s2 out2 ∧
    log s2 = log s1 ++ ["Ending: restore"] ∧
    s2 ≠ s1.
Proof.
  split; [apply relic_reachable|].
  apply restore_after_exfiltrate. vm_compute. reflexivity.
Qed.

End EndedDispatch.


(** ** What the commands change *)

Section Footprints.

Lemma grows_refl s : grows s s.
Proof. unfold grows. by split_and!. Qed.

Lemma grows_trans s1 s2 s3 : grows s1 s2 → grows s2 s3 → grows s1 s3.
Proof.
  unfold grows.
  intros (H1 & H2 & H3 & H4 & H5 & H6 & H7 & H8) (K1 & K2 & K3 & K4 & K5 & K6 & K7 & K8).
  split_and!; try (etrans; eassumption). auto.
Qed.

Lemma unchanged_refl f s : unchanged f s s.
Proof. by destruct f. Qed.

Lemma unchanged_trans f s1 s2 s3 :
  unchanged f s1 s2 → unchanged f s2 s3 → unchanged f s1 s3.
Proof. destruct f; simpl; congruence. Qed.

Lemma touches_refl fs s : touches fs s s.
Proof. split; [apply grows_refl | intros; apply unchanged_refl]. Qed.

Lemma touches_trans fs s1 s2 s3 :
  touches fs s1 s2 → touches fs s2 s3 → touches fs s1 s3.
Proof.
  intros [G1 U1] [G2 U2]. split; [by eapply grows_trans|].
  intros f Hf. eapply unchanged_trans; eauto.
Qed.

Lemma steps_ret {A} fs (a : A) : steps (touches fs) (mret a).
Proof. intros s. apply touches_refl. Qed.

Lemma steps_show fs text : steps (touches fs) (show text).
Proof. intros s. apply touches_refl. Qed.

Lemma steps_print fs text : steps (touches fs) (print text).
Proof. intros s. apply touches_refl. Qed.

Lemma steps_raise {A} fs e : steps (touches fs) (@raise A e).
Proof. intros s. apply touches_refl. Qed.

Lemma steps_bind {A B} fs (m : M A) (f : A → M B) :
  steps (touches fs) m → (∀ a, steps (touches fs) (f a)) →
  steps (touches fs) (m ≫= f).
Proof.
  intros Hm Hf s. unfold mbind, M_bind. specialize (Hm s).
  destruct (m s) as [a s1 o1|e s1 o1]; simpl in *; [|done].
  specialize (Hf a s1). destruct (f a s1); simpl in *; by eapply touches_trans.
Qed.

Lemma steps_get_bind {B} fs (f : State → M B) :
  (∀ s0, steps (touches fs) (f s0)) → steps (touches fs) (get ≫= f).
Proof.
  intros Hf s. unfold mbind, M_bind, get. specialize (Hf s s).
  destruct (f s s); simpl in *; done.
Qed.

Lemma steps_modify fs (f : State → State) :
  (∀ s, touches fs s (f s)) → steps (touches fs) (modify f).
Proof. intros Hf s. apply Hf. Qed.

Lemma steps_for_each {A} fs (l : list A) (body : A → M unit) :
  (∀ x, steps (touches fs) (body x)) → steps (touches fs) (for_each l body).
Proof.
  intros Hb. induction l as [|x l IH]; simpl.
  - apply steps_ret.
  - apply steps_bind; [apply Hb | intros _; apply IH].
Qed.

End Footprints.

(** A key is in a footprint. *)
Ltac in_footprint :=
  first [ assumption
        | repeat first [apply list_elem_of_here | apply list_elem_of_further] ].

(** An assignment to a key of the footprint that takes nothing away. *)
Ltac touch :=
  let s := fresh "s" in let f := fresh "f" in let Hf := fresh "Hf" in
  intros s; split;
  [ unfold grows;
    cbn [handle location inventory scripts flags discovered log visited
         last_cipher ended set_location set_inventory set_scripts set_flags
         set_discovered set_log set_visited set_last_cipher set_ended];
    split_and!;
    first [ reflexivity | apply union_subseteq_r | by apply prefix_app_r | done ]
  | intros f Hf; destruct f;
    cbn [unchanged handle location inventory scripts flags discovered log
         visited last_cipher ended set_location set_inventory set_scripts
         set_flags set_discovered set_log set_visited set_last_cipher set_ended];
    first [ reflexivity | exfalso; apply Hf; in_footprint ] ].

Ltac steps_step :=
  first
    [ progress cbv beta zeta
    | lazymatch goal with
      | |- steps _ (mret _) => apply steps_ret
      | |- steps _ (show _) => apply steps_show
      | |- steps _ (print _) => apply steps_print
      | |- steps _ (raise _) => apply steps_raise
      | |- steps _ (modify _) => apply steps_modify; solve [touch]
      | |- steps _ (get ≫= _) => apply steps_get_bind; intros ?
      | |- steps _ (_ ≫= _) => apply steps_bind; [|intros ?]
      | |- steps _ (for_each _ _) => apply steps_for_each; intros ?
      | |- steps _ (match ?x with _ => _ end) => destruct x
      end
    | solve [eauto with steps; in_footprint] ].

Ltac steps_auto := repeat steps_step.

Create HintDb steps.

Section FootprintsOfCommands.

Lemma steps_log_event fs text : Log ∈ fs → steps (touches fs) (log_event text).
Proof. intros ?. unfold log_event. steps_auto. Qed.

Lemma steps_add_flag fs flag : Flags ∈ fs → steps (touches fs) (add_flag flag).
Proof. intros ?. unfold add_flag. steps_auto. Qed.

Lemma steps_add_item fs item : Inventory ∈ fs → steps (touches fs) (add_item item).
Proof. intros ?. unfold add_item. steps_auto. Qed.

Lemma steps_node_at fs node_id : steps (touches fs) (node_at node_id).
Proof. unfold node_at. steps_auto. Qed.

Lemma steps_discover fs nodes : Discovered ∈ fs → steps (touches fs) (discover nodes).
Proof. intros ?. induction nodes as [|n rest IH]; cbn [discover]; steps_auto. Qed.

Lemma steps_requirements_for fs node_id :
  steps (touches fs) (requirements_for node_id).
Proof. unfold requirements_for. steps_auto. apply steps_node_at. Qed.

End FootprintsOfCommands.

Ltac steps_known :=
  lazymatch goal with
  | |- steps _ (log_event _) => apply steps_log_event; in_footprint
  | |- steps _ (add_flag _) => apply steps_add_flag; in_footprint
  | |- steps _ (add_item _) => apply steps_add_item; in_footprint
  | |- steps _ (discover _) => apply steps_discover; in_footprint
  | |- steps _ (node_at _) => apply steps_node_at
  | |- steps _ (requirements_for _) => apply steps_requirements_for
  end.

Ltac steps_cmd := repeat first [steps_known | steps_step].

Section FootprintsOfHandlers.

Lemma steps_enter_node fs node_id :
  Location ∈ fs → Visited ∈ fs → Log ∈ fs →
  steps (touches fs) (enter_node node_id).
Proof. intros ???. unfold enter_node. steps_cmd. Qed.

Lemma steps_current_files fs : steps (touches fs) current_files.
Proof. unfold current_files. steps_cmd. Qed.

Lemma steps_run_script fs script_id :
  Inventory ∈ fs → Flags ∈ fs → Discovered ∈ fs → Log ∈ fs →
  steps (touches fs) (run_script script_id).
Proof. intros ????. unfold run_script. steps_cmd. Qed.

Lemma steps_scan_decoded fs result :
  Flags ∈ fs → Log ∈ fs → steps (touches fs) (scan_decoded result).
Proof. intros ??. unfold scan_decoded. steps_cmd. Qed.

Lemma steps_cmd_help args : steps (touches []) (cmd_help args).
Proof. unfold cmd_help. steps_cmd. Qed.

Lemma steps_cmd_scan args : steps (touches []) (cmd_scan args).
Proof. unfold cmd_scan. steps_cmd. Qed.

Lemma steps_cmd_connect args :
  steps (touches [Location; Visited; Log]) (cmd_connect args).
Proof. unfold cmd_connect. steps_cmd. apply steps_enter_node; in_footprint. Qed.

Lemma steps_cmd_ls args : steps (touches []) (cmd_ls args).
Proof. unfold cmd_ls. steps_cmd; apply steps_current_files. Qed.

Lemma steps_cmd_cat args : steps (touches [LastCipher; Log]) (cmd_cat args).
Proof. unfold cmd_cat. steps_cmd; apply steps_current_files. Qed.

Lemma steps_cmd_download args :
  steps (touches [Inventory; Scripts; Log]) (cmd_download args).
Proof. unfold cmd_download. steps_cmd; apply steps_current_files. Qed.

Lemma steps_cmd_run args :
  steps (touches [Inventory; Flags; Discovered; Log]) (cmd_run args).
Proof.
  unfold cmd_run. steps_cmd;
    first [apply steps_current_files | apply steps_run_script; in_footprint].
Qed.

Lemma steps_cmd_decode args : steps (touches [Flags; Log]) (cmd_decode args).
Proof. unfold cmd_decode. steps_cmd; apply steps_scan_decoded; in_footprint. Qed.

Lemma steps_cmd_inventory args : steps (touches []) (cmd_inventory args).
Proof. unfold cmd_inventory. steps_cmd. Qed.

Lemma steps_cmd_profile args : steps (touches []) (cmd_profile args).
Proof. unfold cmd_profile. steps_cmd. Qed.

Lemma steps_cmd_log args : steps (touches []) (cmd_log args).
Proof. unfold cmd_log. steps_cmd. Qed.

Lemma steps_cmd_home args :
  steps (touches [Location; Visited; Log]) (cmd_home args).
Proof. unfold cmd_home. apply steps_enter_node; in_footprint. Qed.

Lemma steps_cmd_exfiltrate args :
  steps (touches [Ended; Log]) (cmd_exfiltrate args).
Proof. unfold cmd_exfiltrate. steps_cmd. Qed.

Lemma steps_cmd_restore args : steps (touches [Ended; Log]) (cmd_restore args).
Proof. unfold cmd_restore. steps_cmd. Qed.

Lemma steps_cmd_save args : steps (touches []) (cmd_save args).
Proof. unfold cmd_save. steps_cmd. Qed.

End FootprintsOfHandlers.

Section FootprintOfDispatch.

Lemma in_list_spec x l : in_list x l = true ↔ x ∈ l.
Proof.
  unfold in_list. rewrite existsb_exists. split.
  - intros (y & Hy & Heq). apply String.eqb_eq in Heq as ->.
    by apply list_elem_of_In.
  - intros Hx. exists x. split; [by apply list_elem_of_In | apply String.eqb_refl].
Qed.

Lemma then_ret_touches {A} fs (m : M A) (disk : Disk) s :
  steps (touches fs) m → touches fs s (state_of ((m;; mret disk) s)).
Proof.
  intros Hm. apply (steps_bind fs m (λ _, mret disk)); [done|].
  intros _. apply steps_ret.
Qed.

Lemma touches_nil s s' : touches [] s s' → s' = s.
Proof.
  intros [_ Hu]. assert (∀ f, unchanged f s s') as H.
  { intros f. apply Hu. apply not_elem_of_nil. }
  apply state_eq.
  - apply (H Handle).
  - apply (H Location).
  - apply (H Inventory).
  - apply (H Scripts).
  - apply (H Flags).
  - apply (H Discovered).
  - apply (H Log).
  - apply (H Visited).
  - apply (H LastCipher).
  - apply (H Ended).
Qed.

(** Every command but [load] stays within its footprint and takes nothing
    away. *)
Lemma dispatch_touches disk part0 args s :
  Py.lower part0 ≠ "load" →
  touches (footprint (Py.lower part0)) s
    (state_of (dispatch disk (part0 :: args) s)).
Proof.
  unfold dispatch. cbv zeta. generalize (Py.lower part0). intros cmd Hne.
  repeat
    lazymatch goal with
    | |- touches _ _ (state_of ((if in_list cmd ?l then _ else _) _)) =>
        let E := fresh "E" in
        destruct (in_list cmd l) eqn:E;
        [ apply in_list_spec in E; rewrite ?elem_of_cons, elem_of_nil in E;
          repeat (destruct E as [E|E]); try done; subst cmd
        | ]
    | |- touches _ _ (state_of ((if String.eqb cmd ?c then _ else _) _)) =>
        let E := fresh "E" in
        destruct (String.eqb cmd c) eqn:E;
        [ apply String.eqb_eq in E; try done; subst cmd | ]
    end.
  all: try (apply then_ret_touches).
  all: try first
    [ apply steps_cmd_help | apply steps_cmd_scan | apply steps_cmd_connect
    | apply steps_cmd_ls | apply steps_cmd_cat | apply steps_cmd_download
    | apply steps_cmd_run | apply steps_cmd_decode | apply steps_cmd_inventory
    | apply steps_cmd_profile | apply steps_cmd_log | apply steps_cmd_home
    | apply steps_cmd_exfiltrate | apply steps_cmd_restore
    | apply (steps_cmd_save args s) | apply touches_refl ].
  unfold footprint.
  repeat match goal with
         | H : ?c = false |- context [if ?c then _ else _] => rewrite H
         end.
  apply steps_show.
Qed.

(** X1. No command other than [load] takes anything away: the handle stays,
    inventory, scripts, flags, discovered and visited only gain members,
    the log only gains entries at its end, and a state that has ended stays
    ended; this also holds when the command raises. *)
Theorem commands_only_add disk part0 args s :
  Py.lower part0 ≠ "load" →
  grows s (state_of (dispatch disk (part0 :: args) s)).
Proof. intros Hne. by apply dispatch_touches. Qed.

Lemma commands_only_add_witness :
  grows (fresh_state "") (state_of (dispatch NoFile ["RUN"; "tracer.s"] (fresh_state ""))).
Proof. apply commands_only_add. vm_compute. discriminate. Defined.

(** X2. A command other than [load] changes no key outside its footprint:
    only [connect], [go] and [home] change location and visited, only
    [cat] and [read] the cached cipher, only [download] the scripts, only
    [download] and [run] the inventory, only [run] and [decode] the flags,
    only [run] the discovered nodes, only [exfiltrate] and [restore] the
    ended flag, none the handle; and a command whose footprint is empty
    ([help], [scan], [ls], [inventory], [profile], [log], [save], [quit],
    an unknown name) leaves the state as it was. *)
Theorem commands_confined disk part0 args s :
  Py.lower part0 ≠ "load" →
  (∀ f, f ∉ footprint (Py.lower part0) →
        unchanged f s (state_of (dispatch disk (part0 :: args) s))) ∧
  (footprint (Py.lower part0) = [] →
   state_of (dispatch disk (part0 :: args) s) = s).
Proof.
  intros Hne. pose proof (dispatch_touches disk part0 args s Hne) as Ht.
  split; [apply Ht|].
  intros Hfp. rewrite Hfp in Ht. by apply touches_nil.
Qed.

Lemma commands_confined_witness :
  scripts (state_of (dispatch NoFile ["run"; "tracer"] (fresh_state ""))) = ∅ ∧
  state_of (dispatch NoFile ["Scan"] (fresh_state "")) = fresh_state "".
Proof.
  split.
  - apply (proj1 (commands_confined NoFile "run" ["tracer"] (fresh_state "")
                    ltac:(vm_compute; discriminate)) Scripts).
    change (footprint (Py.lower "run")) with [Inventory; Flags; Discovered; Log].
    rewrite !elem_of_cons, elem_of_nil. intuition discriminate.
  - apply (proj2 (commands_confined NoFile "Scan" [] (fresh_state "")
                    ltac:(vm_compute; discriminate))).
    vm_compute. reflexivity.
Defined.

End FootprintOfDispatch.

(** ** Connect *)

Section Connect.

Lemma connect_table (node_id : string) (rest : list string) (node : Node)
    (s : State) :
  NODES !! node_id = Some node →
  let allowed :=
    node_id ∈ discovered s ∧
    Forall (λ item, item ∈ inventory s) (req_items (entry node)) ∧
    Forall (λ flag, flag ∈ flags s) (req_flags (entry node)) in
  (allowed →
   cmd_connect (node_id :: rest) s =
     Ok tt (entered node_id s)
       [Print ""; Print (":: " +:+ node_id +:+ " :: " +:+ title node);
        Show (desc node)]) ∧
  (¬ allowed → ∃ msg, cmd_connect (node_id :: rest) s = Ok tt s [Show msg]) ∧
  (¬ allowed → node_id ∈ discovered s →
   cmd_connect (node_id :: rest) s =
     Ok tt s
       [Show ("Access denied. Missing " +:+
              Py.join "; "
                (needs_of
                   (filter (λ item, item ∉ inventory s) (req_items (entry node)))
                   (filter (λ flag, flag ∉ flags s) (req_flags (entry node)))) +:+
              ".")]).
Proof.
  intros HN allowed. subst allowed.
  unfold cmd_connect, mbind, M_bind, get.
  destruct (decide (node_id ∈ discovered s)) as [Hd|Hd].
  - rewrite (requirements_for_eq _ _ _ HN).
    destruct (is_nil (filter _ (req_items _)) && is_nil (filter _ (req_flags _)))
      eqn:Hok; cbv beta iota; rewrite ?(enter_node_ok _ _ _ HN).
    + apply andb_true_iff in Hok as [Hi Hf].
      apply is_nil_filter_missing in Hi, Hf.
      split_and!; [done| |]; intros Hno; exfalso; by apply Hno.
    + split_and!.
      * intros (_ & Hi & Hf). apply is_nil_filter_missing in Hi, Hf.
        by rewrite Hi, Hf in Hok.
      * intros _. by eexists.
      * done.
  - split_and!; [by intros [? _] | intros _; by eexists | done].
Qed.

(** X3. For a node of the World Definition, [connect] enters it exactly
    when it is discovered and every required item and flag is owned; it
    then prints the node banner.  Otherwise it prints one message and
    leaves the state as it was; when the node is discovered the message is
    the access denial with the missing items and signals. *)
Theorem connect_outcome (node_id : string) (rest : list string) (node : Node)
    (s : State) :
  NODES !! node_id = Some node →
  let allowed :=
    node_id ∈ discovered s ∧
    Forall (λ item, item ∈ inventory s) (req_items (entry node)) ∧
    Forall (λ flag, flag ∈ flags s) (req_flags (entry node)) in
  (allowed →
   cmd_connect (node_id :: rest) s =
     Ok tt (entered node_id s)
       [Print ""; Print (":: " +:+ node_id +:+ " :: " +:+ title node);
        Show (desc node)]) ∧
  (¬ allowed → ∃ msg, cmd_connect (node_id :: rest) s = Ok tt s [Show msg]) ∧
  (¬ allowed → node_id ∈ discovered s →
   cmd_connect (node_id :: rest) s =
     Ok tt s
       [Show ("Access denied. Missing " +:+
              Py.join "; "
                (needs_of
                   (filter (λ item, item ∉ inventory s) (req_items (entry node)))
                   (filter (λ flag, flag ∉ flags s) (req_flags (entry node)))) +:+
              ".")]).
Proof. apply connect_table. Qed.

Lemma connect_outcome_witness :
  cmd_connect ["lattice.cache"] (set_discovered {["lattice.cache"]} (fresh_state "")) =
    Ok tt (set_discovered {["lattice.cache"]} (fresh_state ""))
      [Show "Access denied. Missing items: token.key, weaver.mark; signals: lattice_sigil."].
Proof.
  destruct (connect_outcome "lattice.cache" [] node_lattice_cache
              (set_discovered {["lattice.cache"]} (fresh_state "")) eq_refl)
    as (_ & _ & Hdenied).
  rewrite Hdenied.
  - reflexivity.
  - intros (_ & Hi & _). apply Forall_cons in Hi as [Hi _].
    cbn [inventory set_discovered fresh_state] in Hi. by apply not_elem_of_empty in Hi.
  - cbn [discovered set_discovered]. by apply elem_of_singleton.
Defined.

End Connect.

(** ** Script effects *)

Ltac script_run :=
  unfold run_script; cbn [String.eqb Ascii.eqb Bool.eqb];
  unfold mbind, M_bind, get, add_flag, add_item, log_event, modify, show;
  cbv beta iota.

Section Scripts.

(** [discover] on nodes that are all discovered. *)
Lemma discover_known ids s :
  Forall (λ x, x ∈ discovered s) ids → discover ids s = Ok [] s [].
Proof.
  intros Hall. induction ids as [|a ids IH]; [done|].
  apply Forall_cons in Hall as [Ha Hall]. cbn [discover].
  unfold mbind, M_bind, get. cbv beta iota.
  destruct (decide (a ∈ discovered s)); [|done].
  rewrite (IH Hall). reflexivity.
Qed.

Lemma run_tracer s :
  ∃ out,
    run_script "tracer" s =
      Ok tt
        (set_log (log s ++ ["Tracer mapped the perimeter"])
           (set_flags ({["trace_open"]} ∪ flags s)
              (set_discovered
                 (discovered s ∪ list_to_set ["market.node"; "perimeter.gate"]) s)))
        out.
Proof.
  script_run.
  destruct (discover_run ["market.node"; "perimeter.gate"] s) as (added & -> & _).
  cbv beta iota. destruct (is_nil added); by eexists.
Qed.

Lemma run_spoof s :
  run_script "spoof" s =
    if decide ("mask.dat" ∈ inventory s) then Ok tt s [Show "Mask already minted."]
    else Ok tt (set_log (log s ++ ["Minted mask.dat"])
                  (set_inventory ({["mask.dat"]} ∪ inventory s) s))
           [Show "Mask minted: mask.dat"].
Proof. script_run. by destruct (decide _). Qed.

Lemma run_sniffer s :
  if decide ("sniffer_run" ∈ flags s)
  then run_script "sniffer" s =
         Ok tt s [Show "Sniffer already swept the quiet bands."]
  else ∃ out,
      run_script "sniffer" s =
        Ok tt
          (set_log (log s ++ ["Sniffer swept the quiet bands"])
             (set_discovered
                (discovered s ∪
                 list_to_set ["weaver.den"; "corp.audit"; "lattice.cache"])
                (set_flags ({["sniffer_run"]} ∪ flags s) s)))
          out.
Proof.
  script_run. destruct (decide _); [done|].
  destruct (discover_run ["weaver.den"; "corp.audit"; "lattice.cache"]
              (set_flags ({["sniffer_run"]} ∪ flags s) s)) as (added & -> & _).
  cbv beta iota. destruct (is_nil added); by eexists.
Qed.

Lemma run_splice s :
  run_script "splice" s =
    if decide ("token.key" ∈ inventory s) then Ok tt s [Show "Token already forged."]
    else if is_nil (filter (λ item, item ∉ inventory s) splice_parts)
    then Ok tt (set_log (log s ++ ["Spliced token.key"])
                  (set_inventory ({["token.key"]} ∪ inventory s) s))
           [Show "Token forged: token.key"]
    else Ok tt s
           [Show ("Splice failed. Missing: " +:+
                  Py.join ", " (filter (λ item, item ∉ inventory s) splice_parts))].
Proof.
  script_run. destruct (decide _); [done|]. by destruct (is_nil _).
Qed.

Lemma run_ghost s :
  if decide ("ghosted" ∈ flags s)
  then run_script "ghost" s = Ok tt s [Show "Ghost protocol already active."]
  else if decide ("weaver.mark" ∈ inventory s)
  then ∃ out,
      run_script "ghost" s =
        Ok tt
          (set_log (log s ++ ["Ghosted the audit trail"])
             (set_discovered (discovered s ∪ list_to_set ["corp.audit"])
                (set_flags ({["ghosted"]} ∪ flags s) s)))
          out
  else run_script "ghost" s = Ok tt s [Show "Ghost protocol requires weaver.mark."].
Proof.
  script_run. destruct (decide _); [done|]. destruct (decide _); [|done].
  destruct (discover_run ["corp.audit"] (set_flags ({["ghosted"]} ∪ flags s) s))
    as (added & -> & _).
  cbv beta iota. destruct (is_nil added); by eexists.
Qed.

Lemma run_fork s :
  if decide ("forked" ∈ flags s)
  then run_script "fork" s = Ok tt s [Show "Relay already forked."]
  else ∃ out,
      run_script "fork" s =
        Ok tt
          (set_log (log s ++ ["Forked the relay to the core"])
             (set_discovered (discovered s ∪ list_to_set ["core.relic"])
                (set_flags ({["forked"]} ∪ flags s) s)))
          out.
Proof.
  script_run. destruct (decide _); [done|].
  destruct (discover_run ["core.relic"] (set_flags ({["forked"]} ∪ flags s) s))
    as (added & -> & _).
  cbv beta iota. destruct (is_nil added); by eexists.
Qed.

Lemma run_unknown script_id s :
  script_id ∉ ["tracer"; "spoof"; "sniffer"; "splice"; "ghost"; "fork"] →
  run_script script_id s = Ok tt s [Show "Script returned no response."].
Proof.
  intros Hno. unfold run_script.
  repeat match goal with
         | |- context [String.eqb script_id ?c] =>
             destruct (String.eqb_spec script_id c) as [->|_];
             [exfalso; apply Hno; in_footprint|]
         end.
  reflexivity.
Qed.

End Scripts.

Section ScriptsAgain.

Lemma set_flags_same s : set_flags (flags s) s = s.
Proof. by destruct s. Qed.

Lemma in_own_union (x : string) (X : gset string) : x ∈ {[x]} ∪ X.
Proof. apply elem_of_union_l. by apply elem_of_singleton. Qed.

Lemma union_absorb (x : string) (X : gset string) : x ∈ X → {[x]} ∪ X = X.
Proof.
  intros Hx. apply set_eq. intros y. rewrite elem_of_union, elem_of_singleton.
  split; [intros [->|?]; done | by right].
Qed.

(** X4. Running a script a second time right after the first changes
    nothing and prints one message, for every script id but [tracer]
    (known or not, applied or refused the first time).  [tracer] has no
    guard: the second run adds its log event again, but neither flags nor
    discovered nodes change and no new signal is reported. *)
Theorem run_script_again (script_id : string) (s : State) :
  (script_id ≠ "tracer" →
   ∃ msg, run_script script_id (state_of (run_script script_id s)) =
            Ok tt (state_of (run_script script_id s)) [Show msg]) ∧
  run_script "tracer" (state_of (run_script "tracer" s)) =
    Ok tt
      (set_log (log (state_of (run_script "tracer" s)) ++
                ["Tracer mapped the perimeter"])
         (state_of (run_script "tracer" s)))
      [Show "Tracer online. Mesh resolved."].
Proof.
  split.
  - intros Hne.
    destruct (decide (script_id ∈ ["tracer"; "spoof"; "sniffer"; "splice";
                                    "ghost"; "fork"])) as [Hin|Hout].
    2: { rewrite !(run_unknown _ _ Hout). by eexists. }
    rewrite !elem_of_cons, elem_of_nil in Hin.
    destruct Hin as [->|[->|[->|[->|[->|[->|[]]]]]]]; [done|..].
    + rewrite (run_spoof s). destruct (decide ("mask.dat" ∈ inventory s)) as [Hi|Hi];
        cbn [state_of]; rewrite run_spoof.
      * rewrite decide_True by done. by eexists.
      * rewrite decide_True by apply in_own_union. by eexists.
    + pose proof (run_sniffer s) as H1.
      destruct (decide ("sniffer_run" ∈ flags s)) as [Hi|Hi].
      * rewrite H1. cbn [state_of]. rewrite H1. by eexists.
      * destruct H1 as [out ->]. cbn [state_of].
        match goal with |- context [run_script _ ?t] => pose proof (run_sniffer t) as H2 end.
        rewrite decide_True in H2 by apply in_own_union. rewrite H2. by eexists.
    + rewrite (run_splice s). destruct (decide ("token.key" ∈ inventory s)) as [Hi|Hi].
      * cbn [state_of]. rewrite run_splice, decide_True by done. by eexists.
      * destruct (is_nil _) eqn:Hnil; cbn [state_of]; rewrite run_splice.
        -- rewrite decide_True by apply in_own_union. by eexists.
        -- rewrite decide_False by done. rewrite Hnil. by eexists.
    + pose proof (run_ghost s) as H1.
      destruct (decide ("ghosted" ∈ flags s)) as [Hi|Hi].
      * rewrite H1. cbn [state_of]. rewrite H1. by eexists.
      * destruct (decide ("weaver.mark" ∈ inventory s)) as [Hw|Hw].
        -- destruct H1 as [out ->]. cbn [state_of].
           match goal with |- context [run_script _ ?t] => pose proof (run_ghost t) as H2 end.
           rewrite decide_True in H2 by apply in_own_union. rewrite H2. by eexists.
        -- rewrite H1. cbn [state_of]. rewrite H1. by eexists.
    + pose proof (run_fork s) as H1.
      destruct (decide ("forked" ∈ flags s)) as [Hi|Hi].
      * rewrite H1. cbn [state_of]. rewrite H1. by eexists.
      * destruct H1 as [out ->]. cbn [state_of].
        match goal with |- context [run_script _ ?t] => pose proof (run_fork t) as H2 end.
        rewrite decide_True in H2 by apply in_own_union. rewrite H2. by eexists.
  - destruct (run_tracer s) as [out ->]. cbn [state_of].
    match goal with |- run_script _ ?t = _ => set (s1 := t) end.
    script_run.
    rewrite discover_known.
    2: { subst s1. cbn [discovered set_log set_flags set_discovered].
         repeat constructor; apply elem_of_union_r; rewrite elem_of_list_to_set;
           in_footprint. }
    cbv beta iota. cbn [is_nil app]. do 2 f_equal.
    rewrite union_absorb; [apply set_flags_same|].
    subst s1. cbn [flags set_log set_flags]. apply in_own_union.
Qed.

End ScriptsAgain.

Section ScriptsAndGates.

Lemma run_script_again_witness :
  ∃ msg, run_script "fork" (state_of (run_script "fork" (fresh_state ""))) =
           Ok tt (state_of (run_script "fork" (fresh_state ""))) [Show msg].
Proof. apply (proj1 (run_script_again "fork" (fresh_state ""))). discriminate. Defined.

Lemma in_list_union (x : string) (l : list string) (X : gset string) :
  x ∈ l → x ∈ X ∪ list_to_set l.
Proof. intros Hx. apply elem_of_union_r. by apply elem_of_list_to_set. Qed.

(** X5. A script that discovers a node it also unlocks makes [connect] to
    that node succeed at once: [tracer] for [market.node] and
    [perimeter.gate], a first [sniffer] for [weaver.den], and a first
    [ghost], run with [weaver.mark] owned, for [corp.audit]. *)
Theorem scripts_open_nodes (s : State) :
  (∀ n, n ∈ ["market.node"; "perimeter.gate"] →
        ∃ out, cmd_connect [n] (state_of (run_script "tracer" s)) =
                 Ok tt (entered n (state_of (run_script "tracer" s))) out) ∧
  ("sniffer_run" ∉ flags s →
   ∃ out, cmd_connect ["weaver.den"] (state_of (run_script "sniffer" s)) =
            Ok tt (entered "weaver.den" (state_of (run_script "sniffer" s))) out) ∧
  ("ghosted" ∉ flags s → "weaver.mark" ∈ inventory s →
   ∃ out, cmd_connect ["corp.audit"] (state_of (run_script "ghost" s)) =
            Ok tt (entered "corp.audit" (state_of (run_script "ghost" s))) out).
Proof.
  split_and!.
  - intros n Hn. destruct (run_tracer s) as [out ->]. cbn [state_of].
    rewrite !elem_of_cons, elem_of_nil in Hn. destruct Hn as [->|[->|[]]].
    + eexists. apply (connect_table "market.node" [] node_market_node _ eq_refl).
      cbn [discovered inventory flags set_log set_flags set_discovered].
      split_and!; [apply in_list_union; in_footprint | constructor |].
      repeat constructor. apply in_own_union.
    + eexists. apply (connect_table "perimeter.gate" [] node_perimeter_gate _ eq_refl).
      cbn [discovered inventory flags set_log set_flags set_discovered].
      split_and!; [apply in_list_union; in_footprint | constructor |].
      repeat constructor. apply in_own_union.
  - intros Hno. pose proof (run_sniffer s) as H1.
    rewrite decide_False in H1 by done. destruct H1 as [out ->]. cbn [state_of].
    eexists. apply (connect_table "weaver.den" [] node_weaver_den _ eq_refl).
    cbn [discovered inventory flags set_log set_flags set_discovered].
    split_and!; [apply in_list_union; in_footprint | constructor |].
    repeat constructor. apply in_own_union.
  - intros Hno Hmark. pose proof (run_ghost s) as H1.
    rewrite decide_False in H1 by done. rewrite decide_True in H1 by done.
    destruct H1 as [out ->]. cbn [state_of].
    eexists. apply (connect_table "corp.audit" [] node_corp_audit _ eq_refl).
    cbn [discovered inventory flags set_log set_flags set_discovered].
    split_and!; [apply in_list_union; in_footprint | constructor |].
    repeat constructor. apply in_own_union.
Qed.

Lemma scripts_open_nodes_witness :
  ∃ out, cmd_connect ["weaver.den"] (state_of (run_script "sniffer" (fresh_state ""))) =
           Ok tt (entered "weaver.den" (state_of (run_script "sniffer" (fresh_state ""))))
              out.
Proof.
  apply (proj1 (proj2 (scripts_open_nodes (fresh_state "")))).
  cbn [flags fresh_state]. apply not_elem_of_empty.
Defined.

End ScriptsAndGates.

(** ** Decode: the ways it can end *)

Section DecodeOutcome.

Lemma decode_table (args : list string) (s : State) :
  ∃ s' out,
    cmd_decode args s = Ok tt s' out ∧
    (∀ flag, flag ∈ flags s' →
             flag ∈ flags s ∨ flag = "ember_phrase" ∨ flag = "lattice_sigil") ∧
    ((∃ result, out = [Show "Decoded:"; Show result]) ∨
     (s' = s ∧
      ∃ msg, out = [Show msg] ∧
             msg ∈ ["Usage: decode rot13|b64 <text>";
                    "No cached cipher. Read a cipher file first.";
                    "Base64 decode failed.";
                    "Unknown cipher. Use rot13 or b64."])).
Proof.
  assert (∀ result, ∃ s',
            scan_decoded result s = Ok tt s' [] ∧
            ∀ flag, flag ∈ flags s' →
                    flag ∈ flags s ∨ flag = "ember_phrase" ∨ flag = "lattice_sigil")
    as Hscan.
  { intros result. rewrite scan_decoded_run. eexists. split; [reflexivity|].
    intros flag. cbn [flags set_log set_flags].
    rewrite !elem_of_union.
    destruct (_ && _), (_ && _);
      rewrite ?elem_of_singleton, ?elem_of_empty; tauto. }
  unfold cmd_decode. destruct args as [|arg0 rest].
  { exists s. eexists. split; [reflexivity|]. split; [by left|].
    right. split; [done|]. eexists. split; [done|]. in_footprint. }
  generalize (in_list (Py.lower arg0) ["rot13"; "rot"; "r13"]); intros is_rot.
  generalize (in_list (Py.lower arg0) ["b64"; "base64"]); intros is_b64.
  unfold mbind, M_bind, get, show. cbv beta iota.
  destruct (match truthy (if is_nil rest then None else _) with
            | Some p => Some p | None => truthy (last_cipher s) end)
    as [payload|].
  2: { exists s. eexists. split; [reflexivity|]. split; [by left|].
       right. split; [done|]. eexists. split; [done|]. in_footprint. }
  destruct is_rot.
  - destruct (Hscan (Py.rot_13 payload)) as (s' & -> & Hfl).
    exists s'. eexists. split; [reflexivity|]. split; [done|]. left. by eexists.
  - destruct is_b64.
    + destruct (base64_text payload) as [text|].
      * destruct (Hscan text) as (s' & -> & Hfl).
        exists s'. eexists. split; [reflexivity|]. split; [done|]. left. by eexists.
      * exists s. eexists. split; [reflexivity|]. split; [by left|].
        right. split; [done|]. eexists. split; [done|]. in_footprint.
    + exists s. eexists. split; [reflexivity|]. split; [by left|].
      right. split; [done|]. eexists. split; [done|]. in_footprint.
Qed.

(** X6. [decode] never raises.  Either it prints the decoded text, or it
    prints one of four messages (usage, no cached cipher, base64 failure,
    unknown cipher) and leaves the state as it was.  The only flags it can
    add are [ember_phrase] and [lattice_sigil]. *)
Theorem decode_outcome (args : list string) (s : State) :
  ∃ s' out,
    cmd_decode args s = Ok tt s' out ∧
    (∀ flag, flag ∈ flags s' →
             flag ∈ flags s ∨ flag = "ember_phrase" ∨ flag = "lattice_sigil") ∧
    ((∃ result, out = [Show "Decoded:"; Show result]) ∨
     (s' = s ∧
      ∃ msg, out = [Show msg] ∧
             msg ∈ ["Usage: decode rot13|b64 <text>";
                    "No cached cipher. Read a cipher file first.";
                    "Base64 decode failed.";
                    "Unknown cipher. Use rot13 or b64."])).
Proof. apply decode_table. Qed.

End DecodeOutcome.

(** ** Download *)

Section Download.

Lemma current_files_at s node :
  NODES !! location s = Some node → current_files s = Ok (files node) s [].
Proof. intros HN. unfold current_files, node_at, mbind, M_bind, get. by rewrite HN. Qed.

Lemma cmd_download_eq name rest s node :
  NODES !! location s = Some node →
  cmd_download (name :: rest) s =
    match assoc name (files node) with
    | Some (ScriptFile script_id true _) =>
        if decide (script_id ∈ scripts s)
        then Ok tt s [Show "Script already in your kit."]
        else Ok tt (set_log (log s ++ ["Downloaded script " +:+ script_id])
                      (set_scripts ({[script_id]} ∪ scripts s) s))
               [Show ("Downloaded script: " +:+ script_id)]
    | Some (ItemFile item_id true _) =>
        if decide (item_id ∈ inventory s)
        then Ok tt s [Show "Item already in your kit."]
        else Ok tt (set_log (log s ++ ["Downloaded item " +:+ item_id])
                      (set_inventory ({[item_id]} ∪ inventory s) s))
               [Show ("Downloaded item: " +:+ item_id)]
    | Some _ => Ok tt s [Show "Nothing to download here."]
    | None => Ok tt s [Show "File not found."]
    end.
Proof.
  intros HN. unfold cmd_download, mbind, M_bind.
  rewrite (current_files_at _ _ HN). cbv beta iota.
  destruct (assoc name (files node)) as [[c t|id [] t|id [] t]|];
    cbn [file_downloadable negb]; try reflexivity.
  - unfold get, modify, log_event, show, modify. cbv beta iota.
    by destruct (decide _).
  - unfold get, modify, log_event, show, modify. cbv beta iota.
    by destruct (decide _).
Qed.

Lemma download_table (name : string) (rest : list string) (s : State)
    (node : Node) :
  NODES !! location s = Some node →
  ∃ s' out,
    cmd_download (name :: rest) s = Ok tt s' out ∧
    (∀ id, id ∈ scripts s' →
           id ∈ scripts s ∨
           ∃ text, assoc name (files node) = Some (ScriptFile id true text)) ∧
    (∀ id, id ∈ inventory s' →
           id ∈ inventory s ∨
           ∃ text, assoc name (files node) = Some (ItemFile id true text)) ∧
    state_of (cmd_download (name :: rest) s') = s'.
Proof.
  intros HN. rewrite (cmd_download_eq _ _ _ _ HN).
  destruct (assoc name (files node)) as [[c t|id [] t|id [] t]|] eqn:Hf.
  all: try (exists s; eexists; split; [reflexivity|];
            split_and!; [by left | by left |];
            by rewrite (cmd_download_eq _ _ _ _ HN), Hf).
  - destruct (decide (id ∈ scripts s)) as [Hin|Hin].
    + exists s. eexists. split; [reflexivity|]. split_and!; [by left | by left |].
      rewrite (cmd_download_eq _ _ _ _ HN), Hf. by rewrite decide_True.
    + eexists _, _. split; [reflexivity|].
      cbn [scripts inventory set_log set_scripts]. split_and!.
      * intros x [Hx%elem_of_singleton|Hx]%elem_of_union; [|by left].
        subst x. right. by eexists.
      * by left.
      * rewrite (cmd_download_eq _ _ _ node) by done. rewrite Hf.
        by rewrite decide_True by apply in_own_union.
  - destruct (decide (id ∈ inventory s)) as [Hin|Hin].
    + exists s. eexists. split; [reflexivity|]. split_and!; [by left | by left |].
      rewrite (cmd_download_eq _ _ _ _ HN), Hf. by rewrite decide_True.
    + eexists _, _. split; [reflexivity|].
      cbn [scripts inventory set_log set_inventory]. split_and!.
      * by left.
      * intros x [Hx%elem_of_singleton|Hx]%elem_of_union; [|by left].
        subst x. right. by eexists.
      * rewrite (cmd_download_eq _ _ _ node) by done. rewrite Hf.
        by rewrite decide_True by apply in_own_union.
Qed.

(** X7. At a node of the World Definition, [download] adds at most one id,
    the script or the item that the named file of the current node offers
    as downloadable, and never raises; downloading the same file again
    changes nothing. *)
Theorem download_outcome (name : string) (rest : list string) (s : State)
    (node : Node) :
  NODES !! location s = Some node →
  ∃ s' out,
    cmd_download (name :: rest) s = Ok tt s' out ∧
    (∀ id, id ∈ scripts s' →
           id ∈ scripts s ∨
           ∃ text, assoc name (files node) = Some (ScriptFile id true text)) ∧
    (∀ id, id ∈ inventory s' →
           id ∈ inventory s ∨
           ∃ text, assoc name (files node) = Some (ItemFile id true text)) ∧
    state_of (cmd_download (name :: rest) s') = s'.
Proof. apply download_table. Qed.

Lemma download_outcome_witness :
  ∃ s' out,
    cmd_download ["tracer.s"] (fresh_state "") = Ok tt s' out ∧
    state_of (cmd_download ["tracer.s"] s') = s'.
Proof.
  destruct (download_outcome "tracer.s" [] (fresh_state "") node_hub_home eq_refl)
    as (s' & out & Hrun & _ & _ & Hagain).
  by exists s', out.
Defined.

End Download.

(** ** Save, load and re-entry *)

Section SaveLoad.

(** X8. On every state with a non-empty handle whose location is among its
    discovered nodes, deserializing the serialization gives the state
    back, field for field. *)
Theorem round_trip_valid (s : State) :
  handle s ≠ "" → location s ∈ discovered s →
  load_state (serialize_state s) = s.
Proof. apply load_serialize. Qed.

Lemma round_trip_valid_witness :
  load_state (serialize_state (state_of (run_script "tracer" (fresh_state "zed")))) =
  state_of (run_script "tracer" (fresh_state "zed")).
Proof.
  destruct (run_tracer (fresh_state "zed")) as [out Hrun].
  rewrite Hrun. cbn [state_of]. apply round_trip_valid.
  - cbn [handle set_log set_flags set_discovered fresh_state String.eqb].
    discriminate.
  - cbn [location discovered set_log set_flags set_discovered fresh_state].
    apply elem_of_union_l. by apply elem_of_singleton.
Defined.

Lemma entered_again node_id s : entered node_id (entered node_id s) = entered node_id s.
Proof.
  unfold entered at 1.
  assert (node_id ∈ visited (entered node_id s)) as Hv.
  { unfold entered. destruct (decide (node_id ∈ visited s)); [done|].
    cbn [visited set_log set_visited]. apply in_own_union. }
  rewrite decide_True by done.
  unfold entered. by destruct (decide _), s.
Qed.

(** X9. [enter_node] on a node of the World Definition sets the location,
    marks the node visited and logs the first visit only: the log gains
    "Entered <node>" when the node was not visited and is unchanged
    otherwise; entering the same node again changes nothing. *)
Theorem enter_node_once (node_id : string) (node : Node) (s : State) :
  NODES !! node_id = Some node →
  ∃ s' out,
    enter_node node_id s = Ok tt s' out ∧
    location s' = node_id ∧
    visited s' = {[node_id]} ∪ visited s ∧
    log s' = (if decide (node_id ∈ visited s) then log s
              else log s ++ ["Entered " +:+ node_id]) ∧
    enter_node node_id s' = Ok tt s' out.
Proof.
  intros HN. rewrite (enter_node_ok _ _ _ HN).
  eexists _, _. split; [reflexivity|].
  rewrite (enter_node_ok _ _ _ HN), entered_again.
  unfold entered. destruct (decide (node_id ∈ visited s)) as [Hv|Hv];
    cbn [location visited log set_location set_visited set_log];
    split_and!; try done.
  by rewrite union_absorb.
Qed.

Lemma enter_node_once_witness :
  ∃ s' out,
    enter_node "hub.home" (fresh_state "") = Ok tt s' out ∧
    log s' = ["Entered hub.home"] ∧
    enter_node "hub.home" s' = Ok tt s' out.
Proof.
  destruct (enter_node_once "hub.home" node_hub_home (fresh_state "") eq_refl)
    as (s' & out & Hrun & _ & _ & Hlog & Hagain).
  exists s', out. split_and!; [done| |done].
  rewrite Hlog. cbn [visited fresh_state].
  by rewrite decide_False by apply not_elem_of_empty.
Defined.

(** X10. [save] writes the serialization and leaves the state alone; a
    [load] of what was saved, from whatever state, puts the player back in
    the saved state, entered again: exactly the saved state when its
    location had been visited.  This needs a non-empty handle and a
    location that is discovered and is a node of the World Definition. *)
Theorem save_then_load (disk : Disk) (s other : State) (node : Node) :
  handle s ≠ "" → location s ∈ discovered s →
  NODES !! location s = Some node →
  dispatch disk ["save"] s =
    Ok (Saved (serialize_state s)) s [Show "Saved to save.json"] ∧
  (∃ out, dispatch (Saved (serialize_state s)) ["load"] other =
            Ok (Saved (serialize_state s)) (entered (location s) s) out) ∧
  (location s ∈ visited s → entered (location s) s = s).
Proof.
  intros Hh Hd HN. split_and!.
  - reflexivity.
  - assert (∀ d, dispatch d ["load"] other = (cmd_load d [];; mret d) other)
      as -> by reflexivity.
    unfold cmd_load, mbind, M_bind, show, put. cbv beta iota.
    rewrite (load_serialize s Hh Hd), (enter_node_ok _ _ _ HN). by eexists.
  - intros Hv. unfold entered. rewrite decide_True by done. by destruct s.
Qed.

Lemma save_then_load_witness :
  ∃ out, dispatch (Saved (serialize_state (fresh_state "zed"))) ["load"]
           (fresh_state "other") =
         Ok (Saved (serialize_state (fresh_state "zed")))
            (entered "hub.home" (fresh_state "zed")) out.
Proof.
  apply (proj1 (proj2 (save_then_load NoFile (fresh_state "zed")
                         (fresh_state "other") node_hub_home
                         ltac:(discriminate)
                         ltac:(cbn [location discovered fresh_state];
                               by apply elem_of_singleton) eq_refl))).
Defined.

End SaveLoad.

(** ** Command names *)

Section CommandNames.

Lemma lower_upper_char c : Py.lower_char (Py.upper_char c) = Py.lower_char c.
Proof. destruct c as [[] [] [] [] [] [] [] []]; reflexivity. Qed.

Lemma lower_lower_char c : Py.lower_char (Py.lower_char c) = Py.lower_char c.
Proof. destruct c as [[] [] [] [] [] [] [] []]; reflexivity. Qed.

Lemma lower_upper x : Py.lower (Py.upper x) = Py.lower x.
Proof.
  unfold Py.lower, Py.upper. induction x as [|c x IH]; [done|].
  cbn [Py.map_chars]. by rewrite lower_upper_char, IH.
Qed.

Lemma lower_lower x : Py.lower (Py.lower x) = Py.lower x.
Proof.
  unfold Py.lower. induction x as [|c x IH]; [done|].
  cbn [Py.map_chars]. by rewrite lower_lower_char, IH.
Qed.

(** X11. The command name is matched without regard to the case of its
    ASCII letters: a command line whose first token is put in upper or in
    lower case is handled as the original one.  (Arguments are taken as
    typed.) *)
Theorem command_name_case (disk : Disk) (part0 : string) (args : list string) :
  dispatch disk (Py.upper part0 :: args) = dispatch disk (part0 :: args) ∧
  dispatch disk (Py.lower part0 :: args) = dispatch disk (part0 :: args).
Proof. unfold dispatch. by rewrite lower_upper, lower_lower. Qed.

End CommandNames.

(** ** Play from a fresh state never reaches the archive *)

Ltac not_in_footprint :=
  rewrite ?elem_of_cons, elem_of_nil; intuition discriminate.

Section Archive.

Lemma edge_node_files n :
  n ∈ edge_nodes →
  ∃ node, NODES !! n = Some node ∧
          existsb (λ '(_, entry), is_script "fork" entry) (files node) = false.
Proof.
  unfold edge_nodes. rewrite !elem_of_cons, elem_of_nil.
  intros [->|[->|[->|[->|[->|[->|[]]]]]]]; eexists; split;
    first [exact eq_refl | vm_compute; reflexivity].
Qed.

Lemma edge_nodes_not_core n :
  n ∈ edge_nodes → n ≠ "core.relic" ∧ n ≠ "archives.arc".
Proof.
  unfold edge_nodes. rewrite !elem_of_cons, elem_of_nil.
  intros [->|[->|[->|[->|[->|[->|[]]]]]]]; split; discriminate.
Qed.

Lemma assoc_is_script {name} {l : list (string * File)} {id d text} :
  assoc name l = Some (ScriptFile id d text) →
  existsb (λ '(_, entry), is_script id entry) l = true.
Proof.
  induction l as [|[k f] l IH]; [done|]. cbn [assoc existsb].
  destruct (String.eqb name k).
  - intros [= ->]. cbn [is_script]. by rewrite String.eqb_refl.
  - intros H. rewrite (IH H). apply orb_true_r.
Qed.

Lemma before_archive_frame s s' :
  before_archive s →
  handle s' = handle s → location s' = location s →
  discovered s' = discovered s → scripts s' = scripts s →
  flags s' = flags s → ended s' = ended s →
  before_archive s'.
Proof.
  unfold before_archive.
  intros (H1 & H2 & H3 & H4 & H5 & H6 & H7) -> -> -> -> -> ->. done.
Qed.

Lemma before_archive_entered n s :
  before_archive s → n ∈ discovered s → before_archive (entered n s).
Proof.
  unfold before_archive, entered. intros (H1 & H2 & H3 & H4 & H5 & H6 & H7) Hn.
  by destruct (decide _).
Qed.

Lemma state_of_then {A B} (m : M A) (k : M B) s :
  (∀ t, state_of (k t) = t) → state_of ((m;; k) s) = state_of (m s).
Proof.
  intros Hk. unfold mbind, M_bind. destruct (m s) as [a s1 o1|]; [|done].
  specialize (Hk s1). by destruct (k s1).
Qed.

Lemma then_ret_ok {A} (m : M A) (disk disk' : Disk) s s' out :
  (m;; mret disk) s = Ok disk' s' out → disk' = disk ∧ s' = state_of (m s).
Proof.
  unfold mbind, M_bind. destruct (m s) as [a s1 o1|]; [|done].
  simpl. by intros [= -> -> _].
Qed.

(** [run_script] without [fork]. *)
Lemma run_script_edge script_id s :
  script_id ≠ "fork" →
  (∀ n, n ∈ discovered (state_of (run_script script_id s)) →
        n ∈ discovered s ∨ n ∈ edge_nodes) ∧
  (∀ f, f ∈ flags (state_of (run_script script_id s)) →
        f ∈ flags s ∨ f ∈ ["trace_open"; "sniffer_run"; "ghosted"]) ∧
  touches [Inventory; Flags; Discovered; Log] s (state_of (run_script script_id s)).
Proof.
  intros Hne. split_and!; [| |apply steps_run_script; in_footprint].
  - destruct (decide (script_id ∈ ["tracer"; "spoof"; "sniffer"; "splice";
                                    "ghost"; "fork"])) as [Hin|Hout].
    2: { rewrite (run_unknown _ _ Hout). by left. }
    rewrite !elem_of_cons, elem_of_nil in Hin.
    destruct Hin as [->|[->|[->|[->|[->|[->|[]]]]]]]; [..|done].
    + destruct (run_tracer s) as [out ->].
      cbn [state_of discovered set_log set_flags set_discovered].
      intros x [?|Hn%elem_of_list_to_set]%elem_of_union; [by left|right].
      unfold edge_nodes. rewrite !elem_of_cons, elem_of_nil in *. tauto.
    + rewrite run_spoof. destruct (decide _) as [?|?]; by left.
    + pose proof (run_sniffer s) as H. destruct (decide _) as [?|?].
      * rewrite H. by left.
      * destruct H as [out ->].
        cbn [state_of discovered set_log set_flags set_discovered].
        intros x [?|Hn%elem_of_list_to_set]%elem_of_union; [by left|right].
        unfold edge_nodes. rewrite !elem_of_cons, elem_of_nil in *. tauto.
    + rewrite run_splice. destruct (decide _) as [?|?]; [by left|].
      destruct (is_nil _); by left.
    + pose proof (run_ghost s) as H. destruct (decide _) as [?|?].
      * rewrite H. by left.
      * destruct (decide _) as [?|?].
        -- destruct H as [out ->].
           cbn [state_of discovered set_log set_flags set_discovered].
           intros x [?|Hn%elem_of_list_to_set]%elem_of_union; [by left|right].
           unfold edge_nodes. rewrite !elem_of_cons, elem_of_nil in *. tauto.
        -- rewrite H. by left.
  - destruct (decide (script_id ∈ ["tracer"; "spoof"; "sniffer"; "splice";
                                    "ghost"; "fork"])) as [Hin|Hout].
    2: { rewrite (run_unknown _ _ Hout). by left. }
    rewrite !elem_of_cons, elem_of_nil in Hin.
    destruct Hin as [->|[->|[->|[->|[->|[->|[]]]]]]]; [..|done].
    + destruct (run_tracer s) as [out ->].
      cbn [state_of flags set_log set_flags set_discovered].
      intros f [->%elem_of_singleton|?]%elem_of_union; [right|by left].
      in_footprint.
    + rewrite run_spoof. destruct (decide _) as [?|?]; by left.
    + pose proof (run_sniffer s) as H. destruct (decide _) as [?|?].
      * rewrite H. by left.
      * destruct H as [out ->].
        cbn [state_of flags set_log set_flags set_discovered].
        intros f [->%elem_of_singleton|?]%elem_of_union; [right|by left].
        in_footprint.
    + rewrite run_splice. destruct (decide _) as [?|?]; [by left|].
      destruct (is_nil _); by left.
    + pose proof (run_ghost s) as H. destruct (decide _) as [?|?].
      * rewrite H. by left.
      * destruct (decide _) as [?|?].
        -- destruct H as [out ->].
           cbn [state_of flags set_log set_flags set_discovered].
           intros f [->%elem_of_singleton|?]%elem_of_union; [right|by left].
           in_footprint.
        -- rewrite H. by left.
Qed.

Lemma before_archive_touches fs s s' :
  before_archive s → touches fs s s' →
  Location ∉ fs → Discovered ∉ fs → Scripts ∉ fs → Flags ∉ fs → Ended ∉ fs →
  before_archive s'.
Proof.
  intros Hb [Hg Hu] ? ? ? ? ?. apply (before_archive_frame s s' Hb).
  - apply Hg.
  - by apply (Hu Location).
  - by apply (Hu Discovered).
  - by apply (Hu Scripts).
  - by apply (Hu Flags).
  - by apply (Hu Ended).
Qed.

Lemma keeps_connect args s :
  before_archive s → before_archive (state_of (cmd_connect args s)).
Proof.
  intros Hb. destruct (cmd_connect_cases args s)
    as [->|(n & rest & node & _ & _ & Hn & _ & ->)]; [done|].
  by apply before_archive_entered.
Qed.

Lemma keeps_home args s :
  before_archive s → before_archive (state_of (cmd_home args s)).
Proof.
  intros Hb. unfold cmd_home.
  rewrite (enter_node_ok "hub.home" node_hub_home s eq_refl). cbn [state_of].
  apply before_archive_entered; [done|]. apply Hb.
Qed.

Lemma keeps_download args s :
  before_archive s → before_archive (state_of (cmd_download args s)).
Proof.
  intros Hb. pose proof (steps_cmd_download args s) as [Hg Hu].
  destruct args as [|name rest]; [done|].
  destruct Hb as (H1 & H2 & H3 & H4 & H5 & H6 & H7).
  destruct (edge_node_files (location s)) as (node & HN & Hfork); [by apply H4|].
  destruct (download_table name rest s node HN) as (s' & out & Hrun & Hsc & _ & _).
  rewrite Hrun in *. cbn [state_of] in *.
  pose proof (Hu Location ltac:(not_in_footprint)) as Hl.
  pose proof (Hu Discovered ltac:(not_in_footprint)) as Hd.
  pose proof (Hu Flags ltac:(not_in_footprint)) as Hf.
  pose proof (Hu Ended ltac:(not_in_footprint)) as He.
  cbn [unchanged] in *. unfold before_archive.
  rewrite Hl, Hd, Hf, He. split_and!; try done.
  - destruct Hg as [-> _]. done.
  - intros Hin. destruct (Hsc _ Hin) as [?|[text Hfile]]; [done|].
    by rewrite (assoc_is_script Hfile) in Hfork.
Qed.

Lemma state_of_get_bind {B} (f : State → M B) s :
  state_of ((get ≫= f) s) = state_of (f s s).
Proof. unfold mbind, M_bind, get. by destruct (f s s). Qed.

Lemma state_of_bind_ok {A B} (m : M A) (f : A → M B) s a s1 o1 :
  m s = Ok a s1 o1 → state_of ((m ≫= f) s) = state_of (f a s1).
Proof. intros Hm. unfold mbind, M_bind. rewrite Hm. by destruct (f a s1). Qed.

Lemma cmd_run_state raw rest s node :
  NODES !! location s = Some node →
  let script_id := if Py.endswith raw ".s" then Py.drop_last 2 raw else raw in
  state_of (cmd_run (raw :: rest) s) = s ∨
  (state_of (cmd_run (raw :: rest) s) = state_of (run_script script_id s) ∧
   (script_id ∈ scripts s ∨
    existsb (λ '(_, entry), is_script script_id entry) (files node) = true)).
Proof.
  intros HN. cbv zeta. unfold cmd_run. cbv zeta.
  generalize (if Py.endswith raw ".s" then Py.drop_last 2 raw else raw).
  intros script_id. rewrite state_of_get_bind.
  destruct (decide (script_id ∈ scripts s)) as [Hin|Hin].
  - right. by split; [|left].
  - rewrite (state_of_bind_ok _ _ _ _ _ _ (current_files_at _ _ HN)).
    destruct (existsb _ (files node)) eqn:He.
    + right. split; [|by right].
      by rewrite (state_of_then (run_script script_id) (show _) s).
    + by left.
Qed.

Lemma keeps_run args s :
  before_archive s → before_archive (state_of (cmd_run args s)).
Proof.
  intros Hb. destruct args as [|raw rest]; [done|].
  pose proof Hb as (H1 & H2 & H3 & H4 & H5 & H6 & H7).
  destruct (edge_node_files (location s)) as (node & HN & Hfork); [by apply H4|].
  destruct (cmd_run_state raw rest s node HN) as [->|[-> Hid]]; [done|].
  match goal with |- context [run_script ?i s] => set (script_id := i) in * end.
  assert (script_id ≠ "fork") as Hne.
  { intros E. rewrite E in Hid. destruct Hid as [?|Hex]; [done|].
    by rewrite Hex in Hfork. }
  destruct (run_script_edge script_id s Hne) as (Hd & Hf & [Hg Hu]).
  pose proof (Hu Location ltac:(not_in_footprint)) as Hl.
  pose proof (Hu Scripts ltac:(not_in_footprint)) as Hs.
  pose proof (Hu Ended ltac:(not_in_footprint)) as He.
  cbn [unchanged] in *. unfold before_archive.
  destruct Hg as (Hh & _ & _ & _ & Hdg & _).
  rewrite Hl, Hs, He, Hh. split_and!; try done.
  - by apply Hdg.
  - by apply Hdg.
  - intros n Hn. destruct (Hd n Hn); auto.
  - intros Hin. destruct (Hf _ Hin) as [?|Hx]; [done|].
    revert Hx. not_in_footprint.
Qed.

Lemma keeps_decode args s :
  before_archive s → before_archive (state_of (cmd_decode args s)).
Proof.
  intros Hb. pose proof (steps_cmd_decode args s) as [Hg Hu].
  destruct (decode_table args s) as (s' & out & Hrun & Hf & _).
  rewrite Hrun in *. cbn [state_of] in *.
  pose proof (Hu Location ltac:(not_in_footprint)) as Hl.
  pose proof (Hu Discovered ltac:(not_in_footprint)) as Hd.
  pose proof (Hu Scripts ltac:(not_in_footprint)) as Hs.
  pose proof (Hu Ended ltac:(not_in_footprint)) as He.
  cbn [unchanged] in *. unfold before_archive.
  destruct Hb as (H1 & H2 & H3 & H4 & H5 & H6 & H7).
  destruct Hg as (Hh & _).
  rewrite Hl, Hd, Hs, He, Hh. split_and!; try done.
  intros Hin. destruct (Hf _ Hin) as [?|[?|?]]; done.
Qed.

Lemma keeps_endings args s :
  before_archive s →
  state_of (cmd_exfiltrate args s) = s ∧ state_of (cmd_restore args s) = s.
Proof.
  intros (H1 & H2 & H3 & H4 & H5 & H6 & H7).
  destruct (edge_nodes_not_core (location s)) as [Hne _]; [by apply H4|].
  apply String.eqb_neq in Hne.
  unfold cmd_exfiltrate, cmd_restore, mbind, M_bind, get. cbv beta iota.
  by rewrite Hne.
Qed.

Lemma keeps_load disk args s :
  before_archive s → saved_before_archive disk →
  before_archive (state_of (cmd_load disk args s)).
Proof.
  intros Hb Hdisk. destruct disk as [| |data]; [done..|].
  destruct Hdisk as (s0 & Hb0 & ->).
  unfold cmd_load, mbind, M_bind, show, put. cbv beta iota.
  pose proof Hb0 as (H1 & H2 & H3 & H4 & H5 & H6 & H7).
  rewrite (load_serialize s0 H1 H2).
  destruct (edge_node_files (location s0)) as (node & HN & _); [by apply H4|].
  rewrite (enter_node_ok _ _ _ HN). cbn [state_of].
  by apply before_archive_entered.
Qed.

End Archive.

Section ArchiveSessions.

Lemma dispatch_keeps disk parts s disk' s' out :
  before_archive s → saved_before_archive disk →
  dispatch disk parts s = Ok disk' s' out →
  before_archive s' ∧ saved_before_archive disk'.
Proof.
  intros Hb Hdisk. unfold dispatch. destruct parts as [|part0 args].
  { by intros [= <- <- _]. }
  cbv zeta. generalize (Py.lower part0). intros cmd.
  repeat match goal with
         | |- (if ?c then _ else _) s = _ → _ => destruct c
         end.
  all: try (intros [-> ->]%then_ret_ok; split; [|done]).
  all: try (eapply before_archive_touches;
            [ exact Hb
            | first [ apply steps_cmd_help | apply steps_cmd_scan
                    | apply steps_cmd_ls | apply steps_cmd_cat
                    | apply steps_cmd_inventory | apply steps_cmd_profile
                    | apply steps_cmd_log | apply (steps_show []) ]
            | not_in_footprint .. ]).
  - by apply keeps_connect.
  - by apply keeps_download.
  - by apply keeps_run.
  - by apply keeps_decode.
  - by apply keeps_home.
  - unfold cmd_save, mbind, M_bind, get, show. cbv beta iota. cbn [mret M_ret].
    intros [= <- <- _]. split; [done|]. by exists s.
  - by apply keeps_load.
  - by rewrite (proj1 (keeps_endings args s Hb)).
  - by rewrite (proj2 (keeps_endings args s Hb)).
  - done.
Qed.

Lemma played_before_archive disk s :
  played disk s → before_archive s ∧ saved_before_archive disk.
Proof.
  induction 1 as [disk h s out Hdisk Hboot|disk s parts disk' s' out _ IH Hrun].
  - split; [|by destruct disk; [..|destruct (Hdisk data)]].
    unfold boot in Hboot. cbn [location fresh_state] in Hboot.
    rewrite (enter_node_ok "hub.home" node_hub_home _ eq_refl) in Hboot.
    injection Hboot as <- _.
    apply before_archive_entered;
      [|cbn [discovered fresh_state]; by apply elem_of_singleton].
    unfold before_archive. cbn [handle location discovered scripts flags ended
                                fresh_state].
    split_and!.
    + by destruct h.
    + by apply elem_of_singleton.
    + by apply elem_of_singleton.
    + intros n ->%elem_of_singleton. unfold edge_nodes. in_footprint.
    + apply not_elem_of_empty.
    + apply not_elem_of_empty.
    + reflexivity.
  - destruct IH as [Hb Hd]. by eapply dispatch_keeps.
Qed.

(** X12. In a session that starts from a fresh state without a readable
    save file, and in which the save file is only written by [save], the
    archive is out of reach: after any sequence of commands the player is
    at neither [archives.arc] nor [core.relic], neither node is
    discovered, the [fork] script is not owned, the relay is not forked,
    and the game has not ended.  (No script discovers [archives.arc], the
    only node that offers [fork].) *)
Theorem archive_out_of_reach (disk : Disk) (s : State) :
  played disk s →
  location s ≠ "archives.arc" ∧ location s ≠ "core.relic" ∧
  ("archives.arc" ∉ discovered s) ∧ ("core.relic" ∉ discovered s) ∧
  ("fork" ∉ scripts s) ∧ ("forked" ∉ flags s) ∧
  ended s = false ∧
  location s ∈ discovered s.
Proof.
  intros [(H1 & H2 & H3 & H4 & H5 & H6 & H7) _]%played_before_archive.
  pose proof (edge_nodes_not_core (location s) (H4 _ H2)) as [? ?].
  split_and!; try done.
  - intros Hin. by destruct (edge_nodes_not_core _ (H4 _ Hin)).
  - intros Hin. by destruct (edge_nodes_not_core _ (H4 _ Hin)).
Qed.

Lemma archive_out_of_reach_witness :
  ∃ s out, boot (fresh_state "zed") = Ok tt s out ∧ ended s = false ∧
           location s ≠ "core.relic".
Proof.
  exists (entered "hub.home" (fresh_state "zed")). eexists.
  assert (boot (fresh_state "zed") = Ok tt (entered "hub.home" (fresh_state "zed"))
            [Print ""; Print (":: " +:+ "hub.home" +:+ " :: " +:+ title node_hub_home);
             Show (desc node_hub_home)]) as Hboot.
  { unfold boot. cbn [location fresh_state].
    apply (enter_node_ok "hub.home" node_hub_home _ eq_refl). }
  split; [exact Hboot|].
  destruct (archive_out_of_reach NoFile (entered "hub.home" (fresh_state "zed")))
    as (_ & Hcore & _ & _ & _ & _ & Hend & _); [|done].
  eapply (played_start NoFile "zed"); [discriminate | exact Hboot].
Defined.

End ArchiveSessions.

(** ** The persisted record is canonical *)

Section Canonical.

Lemma str_le_total : Total Py.str_le.
Proof.
  intros a b. unfold Py.str_le.
  destruct (String.leb_total a b) as [H|H]; rewrite H; [by left|by right].
Qed.

Lemma str_le_trans : Transitive Py.str_le.
Proof.
  unfold Py.str_le, String.leb. intros s1.
  induction s1 as [|c1 s1 IH]; intros [|c2 s2] [|c3 s3]; cbn [String.compare];
    try done.
  unfold Ascii.compare.
  destruct (N.compare_spec (N_of_ascii c1) (N_of_ascii c2)) as [E12|L12|G12];
    destruct (N.compare_spec (N_of_ascii c2) (N_of_ascii c3)) as [E23|L23|G23];
    destruct (N.compare_spec (N_of_ascii c1) (N_of_ascii c3)) as [E13|L13|G13];
    try done; try lia.
  apply IH.
Qed.

(** X13. [serialize_state] writes inventory, scripts, flags, discovered and
    visited as lists in lexicographic order without repetition, holding
    exactly the members of the set; the log is written as it is, and the
    handle, the location, the cached cipher and the ended flag unchanged. *)
Theorem serialize_canonical (s : State) :
  lists_in_order (sv_inventory (serialize_state s)) (inventory s) ∧
  lists_in_order (sv_scripts (serialize_state s)) (scripts s) ∧
  lists_in_order (sv_flags (serialize_state s)) (flags s) ∧
  lists_in_order (sv_discovered (serialize_state s)) (discovered s) ∧
  lists_in_order (sv_visited (serialize_state s)) (visited s) ∧
  sv_log (serialize_state s) = Some (log s) ∧
  sv_handle (serialize_state s) = Some (handle s) ∧
  sv_location (serialize_state s) = Some (location s) ∧
  sv_last_cipher (serialize_state s) = last_cipher s ∧
  sv_ended (serialize_state s) = Some (ended s).
Proof.
  assert (∀ X : gset string, lists_in_order (Some (Py.sorted (elements X))) X) as H.
  { intros X. eexists. split; [reflexivity|]. unfold Py.sorted. split_and!.
    - apply StronglySorted_merge_sort; [apply str_le_trans | apply str_le_total].
    - rewrite merge_sort_Permutation. apply NoDup_elements.
    - intros x. rewrite merge_sort_Permutation. apply elem_of_elements. }
  cbn [serialize_state sv_inventory sv_scripts sv_flags sv_discovered sv_visited
       sv_log sv_handle sv_location sv_last_cipher sv_ended].
  by split_and!.
Qed.

End Canonical.

(** ** What every session keeps *)

Section Settled.

Lemma settled_touches fs s s' :
  settled s → touches fs s s' → Location ∉ fs → settled s'.
Proof.
  intros (Hh & Hv & HN) [Hg Hu] Hl. pose proof (Hu Location Hl) as Hloc.
  cbn [unchanged] in Hloc. destruct Hg as (Hh' & _ & _ & _ & _ & Hvis & _).
  unfold settled. rewrite Hloc, Hh'. split_and!; [done| |done]. by apply Hvis.
Qed.

Lemma settled_entered n node s :
  handle s ≠ "" → NODES !! n = Some node → settled (entered n s).
Proof.
  intros Hh HN. unfold settled, entered.
  destruct (decide (n ∈ visited s));
    cbn [handle location visited set_location set_visited set_log];
    rewrite HN; split_and!; try done. apply in_own_union.
Qed.

Lemma enter_node_returns n s s' out :
  enter_node n s = Ok tt s' out → s' = entered n s ∧ is_Some (NODES !! n).
Proof.
  destruct (NODES !! n) as [node|] eqn:HN.
  - rewrite (enter_node_ok _ _ _ HN). by intros [= <- _].
  - by rewrite (enter_node_raise _ _ HN).
Qed.

Lemma load_state_handle data : handle (load_state data) ≠ "".
Proof.
  destruct (load_state_fields data) as (-> & _).
  destruct (String.eqb_spec (default "ghost" (sv_handle data)) ""); done.
Qed.

Lemma settled_connect args s : settled s → settled (state_of (cmd_connect args s)).
Proof.
  intros Hs. destruct (cmd_connect_cases args s)
    as [->|(n & rest & node & _ & HN & _ & _ & ->)]; [done|].
  eapply settled_entered; [apply Hs | done].
Qed.

Lemma settled_home args s : settled s → settled (state_of (cmd_home args s)).
Proof.
  intros Hs. unfold cmd_home.
  rewrite (enter_node_ok "hub.home" node_hub_home s eq_refl).
  eapply (settled_entered "hub.home"); [apply Hs | done].
Qed.

Lemma settled_load disk args s s' out :
  settled s → cmd_load disk args s = Ok tt s' out → settled s'.
Proof.
  intros Hs. destruct disk as [| |data]; try by intros [= <- _].
  unfold cmd_load, mbind, M_bind, show, put. cbv beta iota.
  destruct (enter_node _ _) as [[] s1 o1|] eqn:He; [|done].
  intros [= <- _]. apply enter_node_returns in He as [-> [node HN]].
  eapply settled_entered; [apply load_state_handle | done].
Qed.

Lemma dispatch_settled disk parts s disk' s' out :
  settled s → dispatch disk parts s = Ok disk' s' out → settled s'.
Proof.
  intros Hs. unfold dispatch. destruct parts as [|part0 args].
  { by intros [= _ <- _]. }
  cbv zeta. generalize (Py.lower part0). intros cmd.
  repeat match goal with
         | |- (if ?c then _ else _) s = _ → _ => destruct c
         end.
  all: try (intros Hrun; pose proof Hrun as [_ ->]%then_ret_ok).
  all: try (eapply settled_touches;
            [ exact Hs
            | first [ apply steps_cmd_help | apply steps_cmd_scan
                    | apply steps_cmd_ls | apply steps_cmd_cat
                    | apply steps_cmd_download | apply steps_cmd_run
                    | apply steps_cmd_decode | apply steps_cmd_exfiltrate
                    | apply steps_cmd_restore
                    | apply steps_cmd_inventory | apply steps_cmd_profile
                    | apply steps_cmd_log | apply (steps_show []) ]
            | not_in_footprint ]).
  - by apply settled_connect.
  - by apply settled_home.
  - unfold cmd_save, mbind, M_bind, get, show. cbv beta iota. cbn [mret M_ret].
    by intros [= _ <- _].
  - unfold mbind, M_bind in Hrun.
    destruct (cmd_load disk args s) as [[] s1 o1|] eqn:Hl; [|done].
    eapply settled_load; [exact Hs | exact Hl].
  - done.
Qed.

(** X14. In every state that the command loop can hold, whatever save
    files were loaded, the handle is not empty, the current location is a
    node of the World Definition, and it is marked visited. *)
Theorem reachable_settled (s : State) :
  reachable s →
  handle s ≠ "" ∧ location s ∈ visited s ∧ is_Some (NODES !! location s).
Proof.
  induction 1 as [h s out Hboot|data s out Hboot|s disk parts disk' s' out _ IH Hrun].
  - unfold boot in Hboot. apply enter_node_returns in Hboot as [-> [node HN]].
    eapply settled_entered; [|done].
    cbn [handle fresh_state]. destruct (String.eqb_spec h ""); [done|done].
  - unfold boot in Hboot. apply enter_node_returns in Hboot as [-> [node HN]].
    eapply settled_entered; [apply load_state_handle | done].
  - by eapply dispatch_settled.
Qed.

Lemma reachable_settled_witness :
  handle stray_state ≠ "" ∧ location stray_state ∈ visited stray_state ∧
  is_Some (NODES !! location stray_state).
Proof. apply reachable_settled. apply stray_reachable. Defined.

End Settled.

(** ** Reading a cipher, then decoding it *)

Section CatDecode.

Lemma cmd_cat_eq name rest s node :
  NODES !! location s = Some node →
  cmd_cat (name :: rest) s =
    match assoc name (files node) with
    | None => Ok tt s [Show "File not found."]
    | Some entry =>
        if file_cipher entry
        then Ok tt (set_log (log s ++ ["Read cipher " +:+ name])
                      (set_last_cipher (Some (file_content entry)) s))
               [Show (file_content entry)]
        else Ok tt s [Show (file_content entry)]
    end.
Proof.
  intros HN. unfold cmd_cat, mbind, M_bind.
  rewrite (current_files_at _ _ HN). cbv beta iota.
  destruct (assoc name (files node)) as [entry|]; [|done].
  unfold show, modify, log_event, modify. cbv beta iota.
  by destruct (file_cipher entry).
Qed.

Lemma cmd_decode_cached cipher s payload :
  last_cipher s = Some payload → payload ≠ "" →
  cmd_decode [cipher] s =
    if in_list (Py.lower cipher) ["rot13"; "rot"; "r13"] then
      (show "Decoded:";; show (Py.rot_13 payload);; scan_decoded (Py.rot_13 payload)) s
    else if in_list (Py.lower cipher) ["b64"; "base64"] then
      match base64_text payload with
      | Some result => (show "Decoded:";; show result;; scan_decoded result) s
      | None => Ok tt s [Show "Base64 decode failed."]
      end
    else Ok tt s [Show "Unknown cipher. Use rot13 or b64."].
Proof.
  intros Hc Hne. unfold cmd_decode. cbn [is_nil truthy].
  unfold mbind at 1, M_bind at 1, get. cbv beta iota. rewrite Hc.
  destruct payload as [|c p]; [done|]. cbn [truthy].
  destruct (in_list _ ["rot13"; "rot"; "r13"]).
  - by destruct ((show "Decoded:";; _) s).
  - destruct (in_list _ ["b64"; "base64"]); [|done].
    destruct (base64_text _); [|done]. by destruct ((show "Decoded:";; _) s).
Qed.

(** X15. After [cat] of a cipher file of the current node, the file's
    content is the cached cipher, and [decode] without a text decodes that
    content: by rot13 under the names rot13, rot and r13, and by base64
    under b64 and base64 when the content is valid base64. *)
Theorem cat_then_decode (name cipher content : string) (rest : list string)
    (s : State) (node : Node) :
  NODES !! location s = Some node →
  assoc name (files node) = Some (TextFile true content) →
  content ≠ "" →
  ∃ s1,
    cmd_cat (name :: rest) s = Ok tt s1 [Show content] ∧
    last_cipher s1 = Some content ∧
    (in_list (Py.lower cipher) ["rot13"; "rot"; "r13"] = true →
     ∃ s2, cmd_decode [cipher] s1 =
             Ok tt s2 [Show "Decoded:"; Show (Py.rot_13 content)]) ∧
    (in_list (Py.lower cipher) ["rot13"; "rot"; "r13"] = false →
     in_list (Py.lower cipher) ["b64"; "base64"] = true →
     ∀ text, base64_text content = Some text →
             ∃ s2, cmd_decode [cipher] s1 = Ok tt s2 [Show "Decoded:"; Show text]).
Proof.
  intros HN Hfile Hne. rewrite (cmd_cat_eq _ _ _ _ HN), Hfile.
  cbn [file_cipher file_content]. eexists. split; [reflexivity|].
  split; [reflexivity|]. split.
  - intros Hrot. rewrite (cmd_decode_cached cipher _ content) by done.
    rewrite Hrot. unfold mbind, M_bind, show. cbv beta iota.
    rewrite scan_decoded_run. by eexists.
  - intros Hrot Hb64 text Htext.
    rewrite (cmd_decode_cached cipher _ content) by done.
    rewrite Hrot, Hb64, Htext. unfold mbind, M_bind, show. cbv beta iota.
    rewrite scan_decoded_run. by eexists.
Qed.

Lemma cat_then_decode_witness :
  ∃ s1 s2,
    cmd_cat ["cipher.txt"] (set_location "perimeter.gate" (fresh_state "")) =
      Ok tt s1 [Show "rzore vf gur qevsg. gur nepuvir jnagf n onqtr naq n znfx."] ∧
    cmd_decode ["ROT13"] s1 =
      Ok tt s2 [Show "Decoded:";
                Show (Py.rot_13 "rzore vf gur qevsg. gur nepuvir jnagf n onqtr naq n znfx.")].
Proof.
  destruct (cat_then_decode "cipher.txt" "ROT13"
              "rzore vf gur qevsg. gur nepuvir jnagf n onqtr naq n znfx." []
              (set_location "perimeter.gate" (fresh_state "")) node_perimeter_gate
              eq_refl eq_refl ltac:(discriminate))
    as (s1 & Hcat & _ & Hrot & _).
  destruct (Hrot eq_refl) as [s2 Hdec]. by exists s1, s2.
Defined.

End CatDecode.

(** ** Scan and connect agree *)

Section Scan.

Lemma bind_get_ok {B} (f : State → M B) s b s' out :
  f s s = Ok b s' out → (get ≫= f) s = Ok b s' out.
Proof. intros Hf. unfold mbind, M_bind, get. by rewrite Hf. Qed.

Lemma bind_ok {A B} (m : M A) (f : A → M B) s a s1 o1 b s2 o2 :
  m s = Ok a s1 o1 → f a s1 = Ok b s2 o2 → (m ≫= f) s = Ok b s2 (o1 ++ o2).
Proof. intros Hm Hf. unfold mbind, M_bind. by rewrite Hm, Hf. Qed.

Lemma for_each_prints {A} (l : list A) (line : A → string) (body : A → M unit) s :
  (∀ x, x ∈ l → body x s = Ok tt s [Print (line x)]) →
  for_each l body s = Ok tt s (map (λ x, Print (line x)) l).
Proof.
  induction l as [|x l IH]; intros Hb; [done|]. cbn [for_each map].
  apply (bind_ok (body x) (λ _, for_each l body) s tt s [Print (line x)]).
  - apply Hb. apply list_elem_of_here.
  - apply IH. intros y Hy. apply Hb. by apply list_elem_of_further.
Qed.

(** X16. When every discovered node is a node of the World Definition,
    [scan] returns without changing the state, and for every discovered
    node other than the current one it prints a line that agrees with
    [connect]: "[OPEN]" when all required items and flags are owned (then
    [connect] enters the node), and otherwise "[LOCKED]" followed by the
    same list of missing items and signals as in the access denial. *)
Theorem scan_agrees_with_connect (args : list string) (s : State)
    (n : string) (node : Node) :
  (∀ m, m ∈ discovered s → is_Some (NODES !! m)) →
  n ∈ discovered s → n ≠ location s → NODES !! n = Some node →
  ∃ out,
    cmd_scan args s = Ok tt s out ∧
    let missing_items := filter (λ item, item ∉ inventory s) (req_items (entry node)) in
    let missing_flags := filter (λ flag, flag ∉ flags s) (req_flags (entry node)) in
    if is_nil missing_items && is_nil missing_flags
    then Print ("- " +:+ n +:+ " [OPEN]") ∈ out ∧
         cmd_connect [n] s =
           Ok tt (entered n s)
             [Print ""; Print (":: " +:+ n +:+ " :: " +:+ title node);
              Show (desc node)]
    else Print (("- " +:+ n +:+ " [LOCKED]") +:+ " (" +:+
                Py.join "; " (needs_of missing_items missing_flags) +:+ ")") ∈ out ∧
         cmd_connect [n] s =
           Ok tt s
             [Show ("Access denied. Missing " +:+
                    Py.join "; " (needs_of missing_items missing_flags) +:+ ".")].
Proof.
  intros Hdef Hn Hne HN.
  set (line := λ x : string,
         match NODES !! x with
         | Some nd =>
             let mi := filter (λ item, item ∉ inventory s) (req_items (entry nd)) in
             let mf := filter (λ flag, flag ∉ flags s) (req_flags (entry nd)) in
             if is_nil mi && is_nil mf then "- " +:+ x +:+ " [OPEN]"
             else ("- " +:+ x +:+ " [LOCKED]") +:+ " (" +:+
                  Py.join "; " (needs_of mi mf) +:+ ")"
         | None => ""
         end).
  set (nodes := Py.sorted (filter (λ m, m ≠ location s) (elements (discovered s)))).
  assert (∀ x, x ∈ nodes ↔ x ∈ discovered s ∧ x ≠ location s) as Hnodes.
  { intros x. subst nodes. unfold Py.sorted.
    rewrite merge_sort_Permutation, list_elem_of_filter, elem_of_elements. tauto. }
  exists (Show "Signals:" :: map (λ x, Print (line x)) nodes). split.
  - unfold cmd_scan. apply bind_get_ok. cbv zeta. fold nodes.
    destruct (is_nil nodes) eqn:Hnil.
    { destruct nodes; [|done]. exfalso.
      assert (n ∈ @nil string) as Hin by (by apply Hnodes).
      by apply elem_of_nil in Hin. }
    apply (bind_ok (show "Signals:") _ s tt s [Show "Signals:"]); [done|].
    apply for_each_prints. intros x Hx.
    apply Hnodes in Hx as [Hx _]. destruct (Hdef x Hx) as [nd Hnd].
    eapply (bind_ok (requirements_for x) _ s _ s []);
      [apply (requirements_for_eq _ _ _ Hnd)|].
    subst line. cbv beta zeta. rewrite Hnd.
    by destruct (is_nil _ && is_nil _).
  - assert (Print (line n) ∈ Show "Signals:" :: map (λ x, Print (line x)) nodes)
      as Hline.
    { apply list_elem_of_further. apply list_elem_of_fmap. exists n.
      split; [done|]. by apply Hnodes. }
    subst line. cbv beta zeta in Hline. rewrite HN in Hline. cbv zeta.
    destruct (connect_table n [] node s HN) as (Hyes & _ & Hno).
    destruct (is_nil _ && is_nil _) eqn:Hok.
    + split; [exact Hline|]. apply Hyes.
      apply andb_true_iff in Hok as [Hi Hf]. apply is_nil_filter_missing in Hi, Hf.
      done.
    + split.
      * exact Hline.
      * apply Hno; [|done]. intros (_ & Hi & Hf).
        apply is_nil_filter_missing in Hi, Hf. by rewrite Hi, Hf in Hok.
Qed.

Lemma scan_agrees_with_connect_witness :
  ∃ out,
    cmd_scan [] (state_of (run_script "tracer" (fresh_state ""))) =
      Ok tt (state_of (run_script "tracer" (fresh_state ""))) out ∧
    Print "- market.node [OPEN]" ∈ out.
Proof.
  destruct (run_tracer (fresh_state "")) as [o Hrun]. rewrite Hrun. cbn [state_of].
  match goal with |- context [cmd_scan [] ?t] => set (s1 := t) end.
  destruct (scan_agrees_with_connect [] s1 "market.node" node_market_node)
    as (out & Hscan & Hline).
  - intros m. subst s1. cbn [discovered set_log set_flags set_discovered fresh_state].
    rewrite elem_of_union, elem_of_singleton, elem_of_list_to_set, !elem_of_cons,
      elem_of_nil.
    intros [->|[->|[->|[]]]]; by eexists.
  - subst s1. cbn [discovered set_log set_flags set_discovered fresh_state].
    apply elem_of_union_r. rewrite elem_of_list_to_set. in_footprint.
  - discriminate.
  - reflexivity.
  - exists out. split; [exact Hscan|].
    cbv zeta in Hline.
    replace (is_nil (filter (λ item, item ∉ inventory s1) (req_items (entry node_market_node)))
             && is_nil (filter (λ flag, flag ∉ flags s1) (req_flags (entry node_market_node))))
      with true in Hline; [apply Hline|].
    symmetry. apply andb_true_iff. split; apply is_nil_filter_missing.
    + constructor.
    + constructor; [|constructor].
      subst s1. cbn [flags set_log set_flags]. apply in_own_union.
Defined.

End Scan.

(** ** Gates and endings over time *)

Section Gates.

Lemma meets_grows node s s' : meets node s → grows s s' → meets node s'.
Proof.
  intros [Hi Hf] (_ & Hinv & _ & Hfl & _). split.
  - eapply Forall_impl; [exact Hi|]. intros x Hx. by apply Hinv.
  - eapply Forall_impl; [exact Hf|]. intros x Hx. by apply Hfl.
Qed.

Lemma requirements_for_meets N node s :
  NODES !! N = Some node →
  (requirements_for N s = Ok (true, [], []) s [] ↔ meets node s).
Proof.
  intros HN. rewrite (requirements_for_eq _ _ _ HN). unfold meets.
  rewrite <-!is_nil_filter_missing. split.
  - intros [= Hok Hi Hf]. by rewrite Hi, Hf.
  - intros [Hi Hf]. rewrite Hi, Hf.
    destruct (filter _ (req_items _)), (filter _ (req_flags _)); done.
Qed.

(** X17. A gate that is open stays open: if every item and flag that a
    node requires is owned, then after any command other than [load] the
    gate evaluator still answers [ok] for that node. *)
Theorem gate_stays_open (N : string) (node : Node) (disk : Disk)
    (part0 : string) (args : list string) (s : State) :
  NODES !! N = Some node →
  requirements_for N s = Ok (true, [], []) s [] →
  Py.lower part0 ≠ "load" →
  requirements_for N (state_of (dispatch disk (part0 :: args) s)) =
    Ok (true, [], []) (state_of (dispatch disk (part0 :: args) s)) [].
Proof.
  intros HN Hok Hne. apply (requirements_for_meets _ _ _ HN).
  apply (requirements_for_meets _ _ _ HN) in Hok.
  eapply meets_grows; [exact Hok|]. by apply dispatch_touches.
Qed.

Lemma gate_stays_open_witness :
  requirements_for "hub.home"
    (state_of (dispatch NoFile ["run"; "tracer"] (fresh_state ""))) =
  Ok (true, [], []) (state_of (dispatch NoFile ["run"; "tracer"] (fresh_state ""))) [].
Proof.
  apply (gate_stays_open "hub.home" node_hub_home NoFile "run" ["tracer"]
           (fresh_state "") eq_refl).
  - by apply (requirements_for_meets "hub.home" node_hub_home _ eq_refl).
  - vm_compute. discriminate.
Defined.

Lemma footprint_ended cmd :
  Ended ∈ footprint cmd → cmd = "exfiltrate" ∨ cmd = "restore".
Proof.
  unfold footprint.
  repeat match goal with
         | |- context [if in_list cmd ?l then _ else _] => destruct (in_list cmd l)
         end.
  all: try (rewrite ?elem_of_cons, elem_of_nil; intuition discriminate).
  repeat match goal with
         | |- context [if String.eqb cmd ?c then _ else _] =>
             destruct (String.eqb_spec cmd c)
         end.
  all: try (rewrite ?elem_of_cons, elem_of_nil; intuition discriminate).
  all: auto.
Qed.

(** X18. Apart from [load], the only way for the game to end is
    [exfiltrate] or [restore] issued at [core.relic]: if [ended] was false
    before a command and is true after it, the command was one of the two
    and the player was at [core.relic]. *)
Theorem ending_only_at_core (disk : Disk) (part0 : string) (args : list string)
    (s : State) :
  Py.lower part0 ≠ "load" →
  ended s = false →
  ended (state_of (dispatch disk (part0 :: args) s)) = true →
  location s = "core.relic" ∧
  (Py.lower part0 = "exfiltrate" ∨ Py.lower part0 = "restore").
Proof.
  intros Hne Hbefore Hafter.
  destruct (dispatch_touches disk part0 args s Hne) as [_ Hconf].
  destruct (decide (Ended ∈ footprint (Py.lower part0))) as [Hin|Hout].
  2: { specialize (Hconf Ended Hout). cbn [unchanged] in Hconf. congruence. }
  pose proof (footprint_ended _ Hin) as Hcmd. split; [|done].
  destruct (String.eqb_spec (location s) "core.relic") as [|Hloc]; [done|].
  exfalso. apply String.eqb_neq in Hloc.
  assert (state_of (dispatch disk (part0 :: args) s) = s) as Hsame.
  { assert (dispatch disk (part0 :: args) = dispatch disk (Py.lower part0 :: args))
      as -> by (unfold dispatch; by rewrite lower_lower).
    assert (∀ t, dispatch disk ("exfiltrate" :: args) t =
                 (cmd_exfiltrate args;; mret disk) t) as He by reflexivity.
    assert (∀ t, dispatch disk ("restore" :: args) t =
                 (cmd_restore args;; mret disk) t) as Hr by reflexivity.
    destruct Hcmd as [-> | ->]; rewrite ?He, ?Hr;
      rewrite (state_of_then _ (mret disk)) by done;
      unfold cmd_exfiltrate, cmd_restore; rewrite state_of_get_bind;
      by rewrite Hloc. }
  congruence.
Qed.

Lemma ending_only_at_core_witness :
  location (set_location "core.relic" (fresh_state "")) = "core.relic" ∧
  (Py.lower "restore" = "exfiltrate" ∨ Py.lower "restore" = "restore").
Proof.
  apply (ending_only_at_core NoFile "restore" [] (set_location "core.relic" (fresh_state ""))).
  - vm_compute. discriminate.
  - reflexivity.
  - assert (∀ t, dispatch NoFile ["restore"] t = (cmd_restore [];; mret NoFile) t)
      as -> by reflexivity.
    rewrite (state_of_then _ (mret NoFile)) by done.
    by rewrite (cmd_restore_at_relic []
                  (set_location "core.relic" (fresh_state "")) eq_refl).
Defined.

End Gates.

(** ** Play from a fresh state keeps what the design asks *)

Section InPlay.

Lemma gate_open_touches fs s s' :
  gate_open s → touches fs s s' → Location ∉ fs → gate_open s'.
Proof.
  intros (node & HN & Hm) [Hg Hu] Hl. exists node.
  pose proof (Hu Location Hl) as Hloc. cbn [unchanged] in Hloc.
  rewrite Hloc. split; [done|]. by eapply meets_grows.
Qed.

Lemma gate_open_entered n node s :
  NODES !! n = Some node → meets node s → gate_open (entered n s).
Proof.
  intros HN [Hi Hf]. destruct (entered_fields n s) as (Hl & Hinv & Hfl & _).
  exists node. rewrite Hl. split; [done|]. unfold meets. by rewrite Hinv, Hfl.
Qed.

Lemma gate_open_connect args s :
  gate_open s → gate_open (state_of (cmd_connect args s)).
Proof.
  intros Hs. destruct (cmd_connect_cases args s)
    as [->|(n & rest & node & _ & HN & _ & Hreq & ->)]; [done|].
  apply (gate_open_entered n node); [done|].
  by apply (requirements_for_meets _ _ _ HN).
Qed.

Lemma gate_open_home args s : gate_open (state_of (cmd_home args s)).
Proof.
  unfold cmd_home. rewrite (enter_node_ok "hub.home" node_hub_home s eq_refl).
  apply (gate_open_entered "hub.home" node_hub_home); [done|].
  split; constructor.
Qed.

Lemma gate_open_load disk args s :
  gate_open s → saved_in_play disk → gate_open (state_of (cmd_load disk args s)).
Proof.
  intros Hs Hdisk. destruct disk as [| |data]; [done..|].
  destruct Hdisk as (s0 & Hb0 & (node & HN & Hm) & ->).
  unfold cmd_load, mbind, M_bind, show, put. cbv beta iota.
  pose proof Hb0 as (H1 & H2 & _).
  rewrite (load_serialize s0 H1 H2), (enter_node_ok _ _ _ HN). cbn [state_of].
  by apply (gate_open_entered _ node).
Qed.

Lemma saved_in_play_before disk : saved_in_play disk → saved_before_archive disk.
Proof. destruct disk as [| |data]; try done. intros (s & ? & ? & ->). by exists s. Qed.

Lemma dispatch_in_play disk parts s disk' s' out :
  before_archive s → gate_open s → saved_in_play disk →
  dispatch disk parts s = Ok disk' s' out →
  before_archive s' ∧ gate_open s' ∧ saved_in_play disk'.
Proof.
  intros Hb Hs Hdisk Hrun.
  destruct (dispatch_keeps disk parts s disk' s' out Hb
              (saved_in_play_before _ Hdisk) Hrun) as [Hb' _].
  split; [done|]. revert Hrun.
  unfold dispatch. destruct parts as [|part0 args].
  { by intros [= <- <- _]. }
  cbv zeta. generalize (Py.lower part0). intros cmd.
  repeat match goal with
         | |- (if ?c then _ else _) s = _ → _ => destruct c
         end.
  all: try (intros [-> ->]%then_ret_ok; split; [|done]).
  all: try (eapply gate_open_touches;
            [ exact Hs
            | first [ apply steps_cmd_help | apply steps_cmd_scan
                    | apply steps_cmd_ls | apply steps_cmd_cat
                    | apply steps_cmd_download | apply steps_cmd_run
                    | apply steps_cmd_decode | apply steps_cmd_exfiltrate
                    | apply steps_cmd_restore
                    | apply steps_cmd_inventory | apply steps_cmd_profile
                    | apply steps_cmd_log | apply (steps_show []) ]
            | not_in_footprint ]).
  - by apply gate_open_connect.
  - apply gate_open_home.
  - unfold cmd_save, mbind, M_bind, get, show. cbv beta iota. cbn [mret M_ret].
    intros [= <- <- _]. split; [done|]. by exists s.
  - by apply gate_open_load.
  - done.
Qed.

Lemma played_in_play disk s :
  played disk s → before_archive s ∧ gate_open s ∧ saved_in_play disk.
Proof.
  intros Hp. pose proof (played_before_archive _ _ Hp) as [Hb _].
  split; [done|]. clear Hb.
  induction Hp as [disk h s out Hdisk Hboot|disk s parts disk' s' out Hp IH Hrun].
  - split; [|by destruct disk; [..|destruct (Hdisk data)]].
    unfold boot in Hboot. cbn [location fresh_state] in Hboot.
    rewrite (enter_node_ok "hub.home" node_hub_home _ eq_refl) in Hboot.
    injection Hboot as <- _.
    apply (gate_open_entered "hub.home" node_hub_home); [done|]. split; constructor.
  - destruct IH as [Hs Hd]. pose proof (played_before_archive _ _ Hp) as [Hb _].
    by destruct (dispatch_in_play _ _ _ _ _ _ Hb Hs Hd Hrun) as (_ & ? & ?).
Qed.

(** X19. In a session that starts from a fresh state without a readable
    save file, and in which the save file is only written by [save], the
    gate of the current location is open at every moment, also after a
    [load]: the location is a node of the World Definition and the gate
    evaluator answers [ok] for it. *)
Theorem played_gate_open (disk : Disk) (s : State) :
  played disk s →
  is_Some (NODES !! location s) ∧
  requirements_for (location s) s = Ok (true, [], []) s [].
Proof.
  intros (_ & (node & HN & Hm) & _)%played_in_play. split; [by eexists|].
  by apply (requirements_for_meets _ _ _ HN).
Qed.

Lemma played_entered_fresh :
  played NoFile (entered "hub.home" (fresh_state "zed")).
Proof.
  eapply (played_start NoFile "zed"); [discriminate|].
  unfold boot. cbn [location fresh_state].
  apply (enter_node_ok "hub.home" node_hub_home _ eq_refl).
Qed.

Lemma played_gate_open_witness :
  requirements_for (location (entered "hub.home" (fresh_state "zed")))
    (entered "hub.home" (fresh_state "zed")) =
  Ok (true, [], []) (entered "hub.home" (fresh_state "zed")) [].
Proof. apply (played_gate_open NoFile). apply played_entered_fresh. Defined.

(** X20. In a session that starts from a fresh state without a readable
    save file, and in which the save file is only written by [save], every
    state survives the persistence round trip: deserializing its
    serialization gives the state back. *)
Theorem played_round_trip (disk : Disk) (s : State) :
  played disk s → load_state (serialize_state s) = s.
Proof.
  intros [(H1 & H2 & _) _]%played_before_archive. by apply load_serialize.
Qed.

Lemma played_round_trip_witness :
  load_state (serialize_state (entered "hub.home" (fresh_state "zed"))) =
  entered "hub.home" (fresh_state "zed").
Proof. apply (played_round_trip NoFile). apply played_entered_fresh. Defined.

End InPlay.

(** ** Script names given to run *)

Section RunNames.

Lemma length_append (a b : string) :
  String.length (a +:+ b) = String.length a + String.length b.
Proof. induction a as [|c a IH]; [done|]. rewrite append_String. simpl. by rewrite IH. Qed.

Lemma substring_whole (a : string) : String.substring 0 (String.length a) a = a.
Proof. induction a as [|c a IH]; [done|]. simpl. by rewrite IH. Qed.

Lemma substring_prefix (a b : string) :
  String.substring 0 (String.length a) (a +:+ b) = a.
Proof.
  induction a as [|c a IH].
  - rewrite append_empty. by destruct b.
  - rewrite append_String. simpl. by rewrite IH.
Qed.

Lemma substring_skip (a b : string) k :
  String.substring (String.length a) k (a +:+ b) = String.substring 0 k b.
Proof. induction a as [|c a IH]; [done|]. rewrite append_String. simpl. apply IH. Qed.

Lemma strip_dot_s (id : string) :
  Py.endswith (id +:+ ".s") ".s" = true ∧ Py.drop_last 2 (id +:+ ".s") = id.
Proof.
  unfold Py.endswith, Py.drop_last. rewrite length_append.
  change (String.length ".s") with 2.
  replace (String.length id + 2 - 2) with (String.length id) by lia.
  rewrite substring_skip, substring_prefix. split; [|done].
  apply andb_true_iff. split; [apply Nat.leb_le; lia | done].
Qed.

(** X21. [run] takes a script name with or without the [.s] suffix:
    [run name.s] does exactly what [run name] does, for a name that does
    not itself end in [.s]. *)
Theorem run_with_suffix (id : string) (rest : list string) (s : State) :
  Py.endswith id ".s" = false →
  cmd_run ((id +:+ ".s") :: rest) s = cmd_run (id :: rest) s.
Proof.
  intros Hno. unfold cmd_run. cbv zeta.
  destruct (strip_dot_s id) as [-> ->]. by rewrite Hno.
Qed.

Lemma run_with_suffix_witness :
  cmd_run ["tracer.s"] (fresh_state "") = cmd_run ["tracer"] (fresh_state "").
Proof. apply (run_with_suffix "tracer" [] (fresh_state "")). reflexivity. Defined.

End RunNames.
